(** * cloudsift: the multi-account scan orchestrator ([cmd/scan/scan.go])

    A shallow embedding of the orchestration code of [runScan]: the
    progress tracker, the account allow-list filter, the task expansion,
    the body of a scan unit (result filter, post-hoc annotation, guarded
    aggregation), and the properties the specification states about them;
    then the rest of the file: the flag handling of the command, scanner
    and session resolution, [getRoleARN] and the writing of the results,
    with the properties the code itself shows. *)

From Stdlib Require Import ZArith String Ascii List Permutation.
From stdpp Require Import base option list gmap strings fin_maps.

Local Open Scope string_scope.
Local Open Scope Z_scope.
Local Open Scope list_scope.

(** ** Go library functions used by the orchestrator *)

Module GoStrings.

(** [strings.Split(s, sep)] for a one-byte separator: the fields between
    the separators, one more than there are separators (so the empty string
    splits into one empty field). *)
Fixpoint Split (s : string) (sep : ascii) : list string :=
  match s with
  | EmptyString => [EmptyString]
  | String c rest =>
      if Ascii.eqb c sep then EmptyString :: Split rest sep
      else match Split rest sep with
           | field :: fields => String c field :: fields
           | [] => [String c EmptyString]
           end
  end.

(** [strings.Join(elems, sep)]. *)
Fixpoint Join (elems : list string) (sep : string) : string :=
  match elems with
  | [] => EmptyString
  | [e] => e
  | e :: rest => e +:+ sep +:+ Join rest sep
  end.

(** The two functions of package [strings] whose result depends on the
    Unicode tables. The orchestrator is parametric in them. *)
Class StringsPkg := {
  EqualFold : string -> string -> bool;
  TrimSpace : string -> string
}.

(** An instance that computes: both functions restricted to ASCII, where
    they agree with Go's on strings of ASCII bytes. *)
Definition asciiLower (c : ascii) : ascii :=
  let n := nat_of_ascii c in
  if (Nat.leb 65 n && Nat.leb n 90)%bool then ascii_of_nat (n + 32) else c.

Fixpoint asciiEqualFold (s t : string) : bool :=
  match s, t with
  | EmptyString, EmptyString => true
  | String a s', String b t' =>
      (Ascii.eqb (asciiLower a) (asciiLower b) && asciiEqualFold s' t')%bool
  | _, _ => false
  end.

Definition asciiIsSpace (c : ascii) : bool :=
  let n := nat_of_ascii c in
  (Nat.eqb n 32 || (Nat.leb 9 n && Nat.leb n 13))%bool.

Fixpoint trimLeft (s : string) : string :=
  match s with
  | EmptyString => EmptyString
  | String c rest => if asciiIsSpace c then trimLeft rest else s
  end.

Fixpoint trimRight (s : string) : string :=
  match s with
  | EmptyString => EmptyString
  | String c rest =>
      match trimRight rest with
      | EmptyString => if asciiIsSpace c then EmptyString else String c EmptyString
      | kept => String c kept
      end
  end.

Definition asciiTrimSpace (s : string) : string := trimRight (trimLeft s).

Definition asciiStrings : StringsPkg :=
  {| EqualFold := asciiEqualFold; TrimSpace := asciiTrimSpace |}.

End GoStrings.
Export GoStrings.

(** Go's [error] values carry a message. *)
Definition error := string.

Inductive result (A : Type) : Type :=
| Ok (a : A)
| Err (e : error).
Arguments Ok {A} a.
Arguments Err {A} e.

(** ** Data model *)

(** [awsinternal.Account]. *)
Record Account := mkAccount { ID : string; Name : string }.

(** A value stored in a [map[string]interface{}]: the orchestrator only
    ever stores strings; anything a scanner put there is opaque. *)
Inductive DetailValue :=
| DString (s : string)
| DOpaque (tag : nat).

(** Modelled from the spec: the declaration of [awsinternal.ScanResult]
    (package [cloudsift/internal/aws]); the fields are those the
    orchestrator reads and writes. A nil [Details] map is [None]. *)
Record ScanResult := mkScanResult {
  ResourceID : string;
  ResourceName : string;
  Tags : gmap string string;
  Details : option (gmap string DetailValue);
  AccountID : string;
  AccountName : string
}.

Abbreviation ScanResults := (list ScanResult).

(** [scannerProgress]. *)
Record scannerProgress := mkProgress {
  pAccountID : string;
  pAccountName : string;
  pRegion : string;
  pScanner : string;
  pResultCount : Z
}.

(** The ignore rules and the worker budget of [config.Config]. *)
Record Config := mkConfig {
  ScanIgnoreResourceIDs : list string;
  ScanIgnoreResourceNames : list string;
  ScanIgnoreTags : gmap string string;
  MaxWorkers : Z;
  Profile : string
}.

(** ** Progress tracker: [scannerProgressMap]

    The map holds pointers, one fresh record per [startScanner]; no pointer
    is stored under two keys, so the records are modelled by value. Every
    method runs under the map's lock: each is one atomic step. *)

Module Progress.

(** [fmt.Sprintf("%s:%s:%s", accountID, region, scanner)]. *)
Definition key (accountID region scanner : string) : string :=
  accountID +:+ ":" +:+ region +:+ ":" +:+ scanner.

Definition startScanner (accountID accountName region scanner : string)
    (s : gmap string scannerProgress) : gmap string scannerProgress :=
  <[key accountID region scanner :=
      {| pAccountID := accountID; pAccountName := accountName;
         pRegion := region; pScanner := scanner; pResultCount := 0 |}]> s.

Definition updateResultCount (accountID region scanner : string) (count : Z)
    (s : gmap string scannerProgress) : gmap string scannerProgress :=
  match s !! key accountID region scanner with
  | Some prog =>
      <[key accountID region scanner :=
          {| pAccountID := pAccountID prog; pAccountName := pAccountName prog;
             pRegion := pRegion prog; pScanner := pScanner prog;
             pResultCount := count |}]> s
  | None => s
  end.

Definition completeScanner (accountID region scanner : string)
    (s : gmap string scannerProgress) : gmap string scannerProgress :=
  delete (key accountID region scanner) s.

(** [getRunning]: the records of the map, in the map's iteration order. *)
Definition getRunning (s : gmap string scannerProgress) : list scannerProgress :=
  (map_to_list s).*2.

(** The key under which a record was stored, recomputed from its fields. *)
Definition keyOf (p : scannerProgress) : string :=
  key (pAccountID p) (pRegion p) (pScanner p).

(** Every record sits under the key its own fields spell. *)
Definition consistent (s : gmap string scannerProgress) : Prop :=
  forall k p, s !! k = Some p -> keyOf p = k.

(** The region the periodic reporter prints for a running unit. *)
Definition displayRegion (prog : scannerProgress) : string :=
  if (String.eqb (pRegion prog) "us-east-1"
      && (String.eqb (pScanner prog) "IAM Roles"
          || String.eqb (pScanner prog) "IAM Users"))%bool
  then "global" else pRegion prog.

End Progress.

(** ** External collaborators *)

(** A credentialed session handle ([*session.Session]); a nil pointer is
    [None] where the code can pass one. *)
Inductive Session := SessionHandle (n : nat).

(** [awsinternal.ScanOptions]. *)
Record ScanOptions := mkScanOptions {
  soRegion : string;
  soDaysUnused : Z;
  soSession : Session
}.

(** The [awsinternal.Scanner] interface: [Label()] and [Scan(opts)]. *)
Record Scanner := mkScanner {
  Label : string;
  Scan : ScanOptions -> result ScanResults
}.

(** The cloud and the packages the orchestrator calls into; every call is
    an oracle whose answer the orchestrator branches on. *)
Class AwsEnv := {
  validateS3Access : string -> string -> string -> option error;
  ListScanners : list string;
  GetScanner : string -> result Scanner;
  GetSessionChain : string -> string -> result Session;
  NewSession : string -> string -> result Session;
  InitializeDefaultCostEstimator : Session -> option error;
  ListAccountsWithSession : Session -> result (list Account);
  ListCurrentAccount : Session -> result (list Account);
  AssumeRoleSession : Session -> string -> result Session;
  GetCallerIdentity : Session -> result string;
  GetAvailableRegions : option Session -> result (list string);
  ValidateRegions : option Session -> list string -> option error;
  GetSessionInRegion : option Session -> string -> result Session;
  InitSharedPool : Z -> option error
}.

(** [scanOptions]: the command-line flags. *)
Record scanOptions := mkOpts {
  regions : string;
  scanners : string;
  output : string;
  outputFormat : string;
  bucket : string;
  bucketRegion : string;
  organizationRole : string;
  scannerRole : string;
  daysUnused : Z;
  accounts : string
}.

(** [scanResult]: one account's results, scanner label to result list. A
    nil slice and an empty one are both [[]]. *)
Record scanResult := mkScanResultSet {
  srAccountID : string;
  srAccountName : string;
  Results : gmap string ScanResults
}.

(** What the logging sink is sent. *)
Inductive LogEvent :=
| LogDebug (msg : string)
| LogInfo (msg : string)
| LogWarn (msg : string) (fields : list string)
| LogError (msg : string) (err : error)
| LogScanStart (scannerNames : list string) (accts : list Account) (rgns : list string)
| LogScannerStart (scanner accountID accountName region : string)
| LogScannerError (scanner accountID accountName region : string) (err : error)
| LogScannerComplete (scanner accountID accountName region : string) (results : ScanResults).

(** [isIAMScanner]. *)
Definition isIAMScanner (scanner : Scanner) : bool :=
  (String.eqb (Label scanner) "IAM Roles" || String.eqb (Label scanner) "IAM Users")%bool.

(** ** Result filter (the loop over [results] in the unit body) *)

Section Filter.
Context {strings_pkg : StringsPkg}.
Variable cfg : Config.

(** First loop: the resource ID against [ScanIgnoreResourceIDs]. *)
Definition ignoredByID (r : ScanResult) : bool :=
  existsb (fun ignoreID => EqualFold (ResourceID r) ignoreID) (ScanIgnoreResourceIDs cfg).

(** Second loop: the resource name against [ScanIgnoreResourceNames]. *)
Definition ignoredByName (r : ScanResult) : bool :=
  existsb (fun ignoreName => EqualFold (ResourceName r) ignoreName) (ScanIgnoreResourceNames cfg).

(** Third loop nest: every ignore tag against every tag of the result. *)
Definition ignoredByTag (r : ScanResult) : bool :=
  existsb (fun ignore : string * string =>
    existsb (fun tag : string * string =>
      (EqualFold tag.1 ignore.1 && EqualFold tag.2 ignore.2)%bool)
      (map_to_list (Tags r)))
    (map_to_list (ScanIgnoreTags cfg)).

(** The flag [shouldIgnore] at the end of one iteration. *)
Definition shouldIgnore (r : ScanResult) : bool :=
  let shouldIgnore := false in
  let shouldIgnore := if ignoredByID r then true else shouldIgnore in
  let shouldIgnore :=
    if negb shouldIgnore then
      if ignoredByName r then true else shouldIgnore
    else shouldIgnore in
  let shouldIgnore :=
    if (negb shouldIgnore && (0 <? Z.of_nat (size (Tags r))))%bool then
      if ignoredByTag r then true else shouldIgnore
    else shouldIgnore in
  shouldIgnore.

(** [filteredResults] once the loop is over. *)
Fixpoint filterResults (results : ScanResults) : ScanResults :=
  match results with
  | [] => []
  | r :: rest =>
      if negb (shouldIgnore r) then r :: filterResults rest
      else filterResults rest
  end.

(** The three rule categories as filters of their own, as the
    specification words them when it says that the categories commute. *)
Definition spec_filterByID (results : ScanResults) : ScanResults :=
  List.filter (fun r => negb (ignoredByID r)) results.
Definition spec_filterByName (results : ScanResults) : ScanResults :=
  List.filter (fun r => negb (ignoredByName r)) results.
Definition spec_filterByTag (results : ScanResults) : ScanResults :=
  List.filter (fun r => negb (ignoredByTag r)) results.

End Filter.

(** ** The scan unit *)

(** One closure appended to [tasks]: the loop variables it captures. *)
Record ScanUnit := mkUnit {
  unitScanner : Scanner;
  unitRegion : string;
  unitAccount : Account
}.

(** The state every unit shares: the progress map, [accountResults], and
    what has been sent to the logging sink. *)
Record ScanState := mkState {
  progress : gmap string scannerProgress;
  accountResults : gmap string scanResult;
  logged : list LogEvent
}.

(** The steps of a unit that touch shared state. Each runs under one lock
    (the progress map's, [resultsMutex], the logger's), so each is atomic
    and the run of a batch is an interleaving of the units' steps. *)
Inductive Action :=
| ALog (e : LogEvent)
| AStart (accountID accountName region scanner : string)
| AUpdate (accountID region scanner : string) (count : Z)
| AAppend (accountID label : string) (filteredResults : ScanResults)
| AComplete (accountID region scanner : string).

(** The critical section guarded by [resultsMutex]. The first unit of a
    pair stores its own slice and later units append to it; an append may
    reuse the spare capacity of that slice but writes only past its
    length, so no unit sees another's elements change and the lists are
    modelled by value. The account's entry is created by [runScan] before
    the units are built; without it the code dereferences a nil pointer.
    This function is used only where the entry exists and returns the map
    as it is otherwise; [appendOrPanic] below has the panic. *)
Definition appendResults (accountID label : string) (filteredResults : ScanResults)
    (ar : gmap string scanResult) : gmap string scanResult :=
  match ar !! accountID with
  | Some res =>
      let merged :=
        match Results res !! label with
        | Some (r :: rs) => ((r :: rs) ++ filteredResults)%list
        | _ => filteredResults
        end in
      <[accountID := {| srAccountID := srAccountID res;
                        srAccountName := srAccountName res;
                        Results := <[label := merged]> (Results res) |}]> ar
  | None => ar
  end.

Definition step (st : ScanState) (a : Action) : ScanState :=
  match a with
  | ALog e =>
      {| progress := progress st; accountResults := accountResults st;
         logged := (logged st ++ [e])%list |}
  | AStart accountID accountName region scanner =>
      {| progress := Progress.startScanner accountID accountName region scanner (progress st);
         accountResults := accountResults st; logged := logged st |}
  | AUpdate accountID region scanner count =>
      {| progress := Progress.updateResultCount accountID region scanner count (progress st);
         accountResults := accountResults st; logged := logged st |}
  | AAppend accountID label filteredResults =>
      {| progress := progress st;
         accountResults := appendResults accountID label filteredResults (accountResults st);
         logged := logged st |}
  | AComplete accountID region scanner =>
      {| progress := Progress.completeScanner accountID region scanner (progress st);
         accountResults := accountResults st; logged := logged st |}
  end.

Definition run (st : ScanState) (trace : list Action) : ScanState :=
  foldl step st trace.

(** The result list of one (account, scanner label) pair. *)
Definition resultsFor (ar : gmap string scanResult) (accountID label : string) : ScanResults :=
  match ar !! accountID with
  | Some res => default [] (Results res !! label)
  | None => []
  end.

(** [logRegion] in the unit body. *)
Definition logRegionOf (scanner : Scanner) (region : string) : string :=
  if isIAMScanner scanner then "global" else region.

(** The loop "Add account and region info to each result", one element;
    each result is taken to own its [Details] map. *)
Definition annotate (account : Account) (scanner : Scanner) (region : string)
    (r : ScanResult) : ScanResult :=
  let details := match Details r with Some d => d | None => ∅ end in
  {| ResourceID := ResourceID r;
     ResourceName := ResourceName r;
     Tags := Tags r;
     Details := Some (<["region" :=
                  DString (if isIAMScanner scanner then "global" else region)]> details);
     AccountID := ID account;
     AccountName := Name account |}.

Section Unit.
Context {strings_pkg : StringsPkg} {aws : AwsEnv}.
Variable cfg : Config.
Variable opts : scanOptions.
Variable accountSessions : gmap string Session.

(** What the unit appends for its pair when its body succeeds. *)
Definition retained (scanner : Scanner) (region : string) (account : Account)
    (results : ScanResults) : ScanResults :=
  annotate account scanner region <$> filterResults cfg results.

(** The body of the closure between the deferred call's registration and
    its [return]s: the steps it takes and the error it returns. Debug
    traces are not part of the model. *)
Definition unitBody (u : ScanUnit) : list Action * option error :=
  let scanner := unitScanner u in
  let region := unitRegion u in
  let account := unitAccount u in
  let logRegion := logRegionOf scanner region in
  match GetSessionInRegion (accountSessions !! ID account) region with
  | Err err =>
      ([ALog (LogScannerError (Label scanner) (ID account) (Name account) logRegion err)],
       Some ("failed to create regional session for account " +:+ ID account +:+ ": " +:+ err))
  | Ok regionSession =>
      match Scan scanner {| soRegion := region; soDaysUnused := daysUnused opts;
                            soSession := regionSession |} with
      | Err err =>
          ([ALog (LogScannerError (Label scanner) (ID account) (Name account) logRegion err)],
           Some err)
      | Ok results =>
          let filteredResults := filterResults cfg results in
          let annotated := annotate account scanner region <$> filteredResults in
          ([AUpdate (ID account) logRegion (Label scanner) (Z.of_nat (length filteredResults));
            AAppend (ID account) (Label scanner) annotated;
            ALog (LogScannerComplete (Label scanner) (ID account) (Name account)
                    logRegion annotated)],
           None)
      end
  end.

(** The whole closure: start, the body, and the deferred complete, which
    runs on every return. *)
Definition unitActions (u : ScanUnit) : list Action :=
  let scanner := unitScanner u in
  let account := unitAccount u in
  let logRegion := logRegionOf scanner (unitRegion u) in
  ([ALog (LogScannerStart (Label scanner) (ID account) (Name account) logRegion);
    AStart (ID account) (Name account) logRegion (Label scanner)]
   ++ (unitBody u).1
   ++ [AComplete (ID account) logRegion (Label scanner)])%list.

Definition unitError (u : ScanUnit) : option error := (unitBody u).2.

(** A unit run without any other unit in between. *)
Definition runUnit (u : ScanUnit) (st : ScanState) : ScanState * option error :=
  (run st (unitActions u), unitError u).

(** The results a unit contributes to its pair: those of a successful
    body, none otherwise. *)
Definition contribution (u : ScanUnit) : ScanResults :=
  match GetSessionInRegion (accountSessions !! ID (unitAccount u)) (unitRegion u) with
  | Err _ => []
  | Ok regionSession =>
      match Scan (unitScanner u)
              {| soRegion := unitRegion u; soDaysUnused := daysUnused opts;
                 soSession := regionSession |} with
      | Err _ => []
      | Ok results => retained (unitScanner u) (unitRegion u) (unitAccount u) results
      end
  end.

End Unit.

(** ** Task expansion (the three nested loops of [runScan]) *)

(** [scanRegions] for one scanner. *)
Definition scanRegionsFor (rgns : list string) (scanner : Scanner) : list string :=
  if isIAMScanner scanner then ["us-east-1"] else rgns.

Definition expandTasks (scnrs : list Scanner) (rgns : list string)
    (accts : list Account) : list ScanUnit :=
  flat_map (fun scanner =>
    flat_map (fun region =>
      List.map (fun account =>
        {| unitScanner := scanner; unitRegion := region; unitAccount := account |})
        accts)
      (scanRegionsFor rgns scanner))
    scnrs.

(** The counter [actualTasks], incremented once per appended closure. *)
Definition actualTasks (scnrs : list Scanner) (rgns : list string)
    (accts : list Account) : Z :=
  fold_left (fun n scanner =>
    fold_left (fun n _ => fold_left (fun n _ => n + 1) accts n)
      (scanRegionsFor rgns scanner) n)
    scnrs 0.

(** ** [runScan]: control flow with early returns and logging *)

(** A statement either falls through with a value or returns from
    [runScan] with its error ([None] is [return nil]). *)
Inductive Flow (A : Type) : Type :=
| Continue (a : A)
| Return (err : option error).
Arguments Continue {A} a.
Arguments Return {A} err.

Definition Run (A : Type) : Type := list LogEvent -> Flow A * list LogEvent.

Definition ret {A} (a : A) : Run A := fun l => (Continue a, l).

Definition bind {A B} (m : Run A) (k : A -> Run B) : Run B :=
  fun l => match m l with
           | (Continue a, l') => k a l'
           | (Return err, l') => (Return err, l')
           end.

Definition emit (e : LogEvent) : Run unit := fun l => (Continue tt, (l ++ [e])%list).

Definition exit {A} (err : option error) : Run A := fun l => (Return err, l).

Notation "'do' x <- m ;; k" := (bind m (fun x => k))
  (at level 20, x name, m at level 99, k at level 200).
Notation "'exec' m ;; k" := (bind m (fun _ => k))
  (at level 20, m at level 99, k at level 200).

Definition when (b : bool) (m : Run unit) : Run unit := if b then m else ret tt.

Section RunScan.
Context {strings_pkg : StringsPkg} {aws : AwsEnv}.
Variable cfg : Config.
Variable opts : scanOptions.

(** [getScanners]: the scanners, the invalid names, or an error. *)
Fixpoint getAllScanners (names : list string) : result (list Scanner) :=
  match names with
  | [] => Ok []
  | name :: rest =>
      match GetScanner name with
      | Err err => Err ("failed to get scanner '" +:+ name +:+ "': " +:+ err)
      | Ok scanner =>
          match getAllScanners rest with
          | Ok found => Ok (scanner :: found)
          | Err err => Err err
          end
      end
  end.

Fixpoint getNamedScanners (names : list string) : list Scanner * list string :=
  match names with
  | [] => ([], [])
  | name :: rest =>
      let '(found, invalid) := getNamedScanners rest in
      match GetScanner name with
      | Err _ => (found, name :: invalid)
      | Ok scanner => (scanner :: found, invalid)
      end
  end.

Definition getScanners (scannerList : string) : result (list Scanner * list string) :=
  if String.eqb scannerList "" then
    match ListScanners with
    | [] => Err "no scanners available in registry"
    | names =>
        match getAllScanners names with
        | Ok found => Ok (found, [])
        | Err err => Err err
        end
    end
  else Ok (getNamedScanners (Split scannerList ",")).

(** "Validate all requested accounts exist": the trimmed requested IDs
    that [accountMap] does not hold. *)
Definition invalidAccounts (requestedAccounts : list string) (accts : list Account)
    : list string :=
  let accountMap : gset string := list_to_set (ID <$> accts) in
  List.filter (fun accountID => negb (bool_decide (accountID ∈ accountMap)))
    (TrimSpace <$> requestedAccounts).

(** "Filter to only requested accounts". *)
Definition filteredAccounts (requestedAccounts : list string) (accts : list Account)
    : list Account :=
  let requestedAccountMap : gset string := list_to_set (TrimSpace <$> requestedAccounts) in
  List.filter (fun account => bool_decide (ID account ∈ requestedAccountMap)) accts.

(** The block "Filter accounts by specified account IDs". *)
Definition filterAccounts (accts : list Account) : Run (list Account) :=
  if negb (String.eqb (accounts opts) "") then
    let requestedAccounts := Split (accounts opts) "," in
    let invalid := invalidAccounts requestedAccounts accts in
    exec when (0 <? Z.of_nat (length invalid))
           (emit (LogWarn "Some requested accounts do not exist in the organization"
                    invalid)) ;;
    let accts := filteredAccounts requestedAccounts accts in
    if Z.of_nat (length accts) =? 0 then
      exit (Some "none of the specified accounts exist in the organization")
    else ret accts
  else ret accts.

Definition chained : bool :=
  (negb (String.eqb (organizationRole opts) "") && negb (String.eqb (scannerRole opts) ""))%bool.

(** "Create a session with organization role for cost estimator". *)
Definition costEstimator : Run unit :=
  do costEstimatorSession <-
    (if negb (String.eqb (organizationRole opts) "") then
       match GetSessionChain (organizationRole opts) "us-east-1" with
       | Ok s => ret s
       | Err costErr =>
           exec emit (LogError "Failed to create cost estimator session with org role" costErr) ;;
           exec emit (LogInfo "Falling back to root profile for cost estimator") ;;
           match NewSession (Profile cfg) "us-east-1" with
           | Ok s => ret s
           | Err costErr =>
               exec emit (LogError "Failed to create cost estimator session" costErr) ;;
               exit None
           end
       end
     else
       match NewSession (Profile cfg) "us-east-1" with
       | Ok s => ret s
       | Err costErr =>
           exec emit (LogError "Failed to create cost estimator session" costErr) ;;
           exit None
       end) ;;
  match InitializeDefaultCostEstimator costEstimatorSession with
  | Some err => exec emit (LogError "Failed to initialize cost estimator" err) ;; exit None
  | None => ret tt
  end.

(** [baseSession]. *)
Definition createBaseSession : Run Session :=
  if chained then
    exec emit (LogInfo "Creating organization session") ;;
    match GetSessionChain (organizationRole opts) "us-west-2" with
    | Ok s => ret s
    | Err err =>
        exec emit (LogError "Failed to create organization session" err) ;;
        exec emit (LogInfo "Falling back to current session") ;;
        match NewSession (Profile cfg) "" with
        | Ok s => ret s
        | Err err => exec emit (LogError "Failed to create base session" err) ;; exit None
        end
    end
  else
    match NewSession (Profile cfg) "" with
    | Ok s => ret s
    | Err err => exec emit (LogError "Failed to create base session" err) ;; exit None
    end.

(** "Get accounts". *)
Definition listAccounts (baseSession : Session) : Run (list Account) :=
  if chained then
    match ListAccountsWithSession baseSession with
    | Ok accts => ret accts
    | Err err =>
        exec emit (LogError "Failed to list organization accounts" err) ;;
        exec emit (LogInfo "Falling back to current account") ;;
        match ListCurrentAccount baseSession with
        | Ok accts => ret accts
        | Err err => exec emit (LogError "Failed to get current account" err) ;; exit None
        end
    end
  else
    match ListCurrentAccount baseSession with
    | Ok accts => ret accts
    | Err err => exec emit (LogError "Failed to get current account" err) ;; exit None
    end.

(** "Create sessions for each account": [accountSessions] and
    [authenticatedAccounts] after the loop. *)
Fixpoint createSessions (baseSession : Session) (accts : list Account)
    (accountSessions : gmap string Session) (authenticatedAccounts : list Account)
    : Run (gmap string Session * list Account) :=
  match accts with
  | [] => ret (accountSessions, authenticatedAccounts)
  | account :: rest =>
      if chained then
        let scannerRoleARN :=
          "arn:aws:iam::" +:+ ID account +:+ ":role/" +:+ scannerRole opts in
        match AssumeRoleSession baseSession scannerRoleARN with
        | Err err =>
            exec emit (LogWarn "Failed to assume scanner role"
                         [err; ID account; Name account; scannerRoleARN]) ;;
            createSessions baseSession rest accountSessions authenticatedAccounts
        | Ok scanSession =>
            match GetCallerIdentity scanSession with
            | Err err =>
                exec emit (LogWarn "Failed to verify scanner role assumption"
                             [err; ID account; Name account; scannerRoleARN]) ;;
                createSessions baseSession rest accountSessions authenticatedAccounts
            | Ok arn =>
                exec emit (LogInfo "Successfully assumed scanner role") ;;
                createSessions baseSession rest
                  (<[ID account := scanSession]> accountSessions)
                  (authenticatedAccounts ++ [account])%list
            end
        end
      else
        createSessions baseSession rest
          (<[ID account := baseSession]> accountSessions)
          (authenticatedAccounts ++ [account])%list
  end.

(** Account resolution: from the base session to the authenticated
    accounts. *)
Definition resolveAccounts : Run (gmap string Session * list Account) :=
  exec costEstimator ;;
  do baseSession <- createBaseSession ;;
  do accts <- listAccounts baseSession ;;
  do accts <- filterAccounts accts ;;
  do resolved <- createSessions baseSession accts ∅ [] ;;
  if Z.of_nat (size resolved.1) =? 0 then
    exec emit (LogWarn "No valid sessions created for any accounts, scan will be skipped" []) ;;
    exit None
  else ret resolved.

End RunScan.

(** ** The worker pool and the interleavings of a batch *)

(** [worker.WorkerPoolMetrics], the counters. *)
Record WorkerPoolMetrics := mkMetrics {
  TotalTasks : Z;
  CompletedTasks : Z;
  FailedTasks : Z
}.

(** Modelled from the spec: [ExecuteTasks] of package
    [cloudsift/internal/worker], which is not among the sources. Every
    unit of the batch runs to completion; its return value is classified
    success or failure; a failure is counted and aborts neither its
    siblings nor the batch. The units run here one after the other in
    batch order, which is one of the schedules the pool admits. *)
Definition ExecuteTasks (body : ScanUnit -> ScanState -> ScanState * option error)
    (tasks : list ScanUnit) (st : ScanState) : ScanState * WorkerPoolMetrics :=
  foldl (fun acc task =>
           let '(st', err) := body task acc.1 in
           (st', match err with
                 | None => {| TotalTasks := TotalTasks acc.2;
                              CompletedTasks := CompletedTasks acc.2 + 1;
                              FailedTasks := FailedTasks acc.2 |}
                 | Some _ => {| TotalTasks := TotalTasks acc.2;
                                CompletedTasks := CompletedTasks acc.2;
                                FailedTasks := FailedTasks acc.2 + 1 |}
                 end))
        (st, {| TotalTasks := Z.of_nat (length tasks);
                CompletedTasks := 0; FailedTasks := 0 |})
        tasks.

(** The schedules of concurrently running units: a trace is built by
    repeatedly taking the next step of any unit that still has one. *)
Inductive interleaving : list (list Action) -> list Action -> Prop :=
| interleaving_done (threads : list (list Action)) :
    Forall (fun t => t = []) threads -> interleaving threads []
| interleaving_step (threads : list (list Action)) (i : nat) (a : Action)
    (rest trace : list Action) :
    threads !! i = Some (a :: rest) ->
    interleaving (<[i := rest]> threads) trace ->
    interleaving threads (a :: trace).

(** ** [runScan], from its first line to the return *)

(** What [runScan] holds when it hands the batch to the pool. *)
Record Plan := mkPlan {
  planSessions : gmap string Session;
  planAccounts : list Account;
  planRegions : list string;
  planScanners : list Scanner;
  planResults : gmap string scanResult;
  planTasks : list ScanUnit
}.

Record RunOutcome := mkOutcome {
  returned : option error;
  created : list ScanUnit;
  final : ScanState;
  metrics : WorkerPoolMetrics
}.

(** "Initialize results map". *)
Definition initResults (accts : list Account) : gmap string scanResult :=
  foldl (fun m account =>
           <[ID account := {| srAccountID := ID account;
                              srAccountName := Name account;
                              Results := ∅ |}]> m)
        ∅ accts.

Section Orchestrator.
Context {strings_pkg : StringsPkg} {aws : AwsEnv}.
Variable cfg : Config.
Variable opts : scanOptions.

(** "Validate S3 access first if using S3 output". *)
Definition validateOutput : Run unit :=
  if String.eqb (output opts) "s3" then
    if String.eqb (bucket opts) "" then
      exit (Some "S3 bucket not specified. Use --bucket flag to specify the S3 bucket")
    else
      match validateS3Access (bucket opts) (bucketRegion opts) (organizationRole opts) with
      | Some err => exit (Some ("S3 bucket validation failed: " +:+ err))
      | None => ret tt
      end
  else ret tt.

(** "Get and validate scanners". *)
Definition validateScanners : Run (list Scanner) :=
  do found <- match getScanners (scanners opts) with
              | Ok found => ret found
              | Err err => exec emit (LogError "Failed to get scanners" err) ;; ret ([], [])
              end ;;
  let scnrs := found.1 in
  let invalidScanners := found.2 in
  exec when (0 <? Z.of_nat (length invalidScanners))
         (emit (LogWarn "Invalid scanners specified" invalidScanners)) ;;
  if Z.of_nat (length scnrs) =? 0 then
    if 0 <? Z.of_nat (length invalidScanners) then
      exit (Some ("no valid scanners found and invalid scanners specified: "
                  +:+ Join invalidScanners ", "))
    else
      exec emit (LogWarn "No scanners available, scan will be skipped" []) ;;
      ret scnrs
  else ret scnrs.

(** "Get and validate regions"; [accounts[0]] exists here because a
    session was created for at least one account. *)
Definition resolveRegions (accountSessions : gmap string Session)
    (accts : list Account) : Run (list string) :=
  let first := match accts with
               | account :: _ => accountSessions !! ID account
               | [] => None
               end in
  if String.eqb (regions opts) "" then
    match GetAvailableRegions first with
    | Ok rgns => ret rgns
    | Err err => exec emit (LogError "Failed to get available regions" err) ;; exit None
    end
  else
    let rgns := Split (regions opts) "," in
    match ValidateRegions first rgns with
    | Some err => exec emit (LogError "Invalid regions" err) ;; exit None
    | None => ret rgns
    end.

(** Everything [runScan] does before [workerPool.ExecuteTasks(tasks)]. *)
Definition prepareScan : Run Plan :=
  exec validateOutput ;;
  do scnrs <- validateScanners ;;
  do resolved <- resolveAccounts cfg opts ;;
  let accountSessions := resolved.1 in
  let accts := resolved.2 in
  do rgns <- resolveRegions accountSessions accts ;;
  let accountResults := initResults accts in
  match InitSharedPool (MaxWorkers cfg) with
  | Some err => exit (Some ("failed to initialize worker pool: " +:+ err))
  | None =>
      exec emit (LogScanStart (Label <$> scnrs) accts rgns) ;;
      ret {| planSessions := accountSessions; planAccounts := accts;
             planRegions := rgns; planScanners := scnrs;
             planResults := accountResults;
             planTasks := expandTasks scnrs rgns accts |}
  end.

(** [runScan]; writing the report never changes the returned error. *)
Definition runScan : RunOutcome :=
  match prepareScan [] with
  | (Return err, l) =>
      {| returned := err; created := [];
         final := {| progress := ∅; accountResults := ∅; logged := l |};
         metrics := {| TotalTasks := 0; CompletedTasks := 0; FailedTasks := 0 |} |}
  | (Continue plan, l) =>
      let executed :=
        ExecuteTasks (runUnit cfg opts (planSessions plan)) (planTasks plan)
          {| progress := ∅; accountResults := planResults plan; logged := l |} in
      {| returned := None; created := planTasks plan;
         final := executed.1; metrics := executed.2 |}
  end.

End Orchestrator.

(** ** Vocabulary of the statements *)

(** The key a progress step works on. *)
Definition progressKeyOf (a : Action) : option string :=
  match a with
  | AStart accountID _ region scanner => Some (Progress.key accountID region scanner)
  | AUpdate accountID region scanner _ => Some (Progress.key accountID region scanner)
  | AComplete accountID region scanner => Some (Progress.key accountID region scanner)
  | _ => None
  end.

(** The key of a unit, as its three progress calls build it. *)
Definition unitKey (u : ScanUnit) : string :=
  Progress.key (ID (unitAccount u))
    (logRegionOf (unitScanner u) (unitRegion u)) (Label (unitScanner u)).

(** Whether a step is the start of a unit with the given key. *)
Definition starts (k : string) (a : Action) : bool :=
  match a with
  | AStart accountID _ region scanner => String.eqb (Progress.key accountID region scanner) k
  | _ => false
  end.

(** The steps of a trace that write [accountResults], in order. *)
Definition appends (trace : list Action) : list Action :=
  List.filter (fun a => match a with AAppend _ _ _ => true | _ => false end) trace.

(** Whether the body of a unit returns an error. *)
Definition fails {strings_pkg : StringsPkg} {aws : AwsEnv} (cfg : Config)
    (opts : scanOptions) (accountSessions : gmap string Session) (u : ScanUnit) : bool :=
  match unitError cfg opts accountSessions u with Some _ => true | None => false end.

(** What a step adds to the result list of one pair. *)
Definition appended (accountID label : string) (a : Action) : ScanResults :=
  match a with
  | AAppend accountID' label' filteredResults =>
      if (String.eqb accountID' accountID && String.eqb label' label)%bool
      then filteredResults else []
  | _ => []
  end.

(** Whether a unit targets a pair. *)
Definition targets (accountID label : string) (u : ScanUnit) : bool :=
  (String.eqb (ID (unitAccount u)) accountID && String.eqb (Label (unitScanner u)) label)%bool.

(** An append finds the entry of its account. *)
Definition ready (ar : gmap string scanResult) (a : Action) : Prop :=
  match a with
  | AAppend accountID _ _ => is_Some (ar !! accountID)
  | _ => True
  end.

(** A statement that never makes [runScan] return an error. *)
Definition soft {A : Type} (m : Run A) : Prop :=
  forall l err l', m l <> (Return (Some err), l').


(** ** The command: flag handling of [NewScanCmd] *)

(** The three ignore flags of the command line. *)
Record ignoreFlags := mkIgnoreFlags {
  ignoreResourceIDs : string;
  ignoreResourceNames : string;
  ignoreTags : string
}.

(** The two parts [strings.SplitN(s, sep, 2)] cuts [s] into at the first
    separator, for a one-byte separator; [None] when there is none. *)
Fixpoint cutAt (s : string) (sep : ascii) : option (string * string) :=
  match s with
  | EmptyString => None
  | String c rest =>
      if Ascii.eqb c sep then Some (EmptyString, rest)
      else match cutAt rest sep with
           | Some (before, after) => Some (String c before, after)
           | None => None
           end
  end.

(** [strings.SplitN(s, sep, 2)]. *)
Definition SplitN2 (s : string) (sep : ascii) : list string :=
  match cutAt s sep with
  | Some (before, after) => [before; after]
  | None => [s]
  end.

(** The loop over the fields of [--ignore-tags], from a given map. *)
Definition parseTagFields (fields : list string) (tags : gmap string string)
    : gmap string string :=
  foldl (fun tags tag =>
           match SplitN2 tag "=" with
           | [k; v] => <[k := v]> tags
           | _ => tags
           end) tags fields.

(** The map assigned to [config.Config.ScanIgnoreTags]. *)
Definition parseIgnoreTags (flag : string) : gmap string string :=
  parseTagFields (Split flag ",") ∅.

(** The assignments to the ignore rules of [config.Config], for the flags
    that were given; the other assignments of [RunE] set fields the
    orchestrator does not read. *)
Definition applyIgnoreFlags (changed : string -> bool) (flags : ignoreFlags)
    (cfg : Config) : Config :=
  {| ScanIgnoreResourceIDs :=
       if changed "ignore-resource-ids" then Split (ignoreResourceIDs flags) ","
       else ScanIgnoreResourceIDs cfg;
     ScanIgnoreResourceNames :=
       if changed "ignore-resource-names" then Split (ignoreResourceNames flags) ","
       else ScanIgnoreResourceNames cfg;
     ScanIgnoreTags :=
       if changed "ignore-tags" then parseIgnoreTags (ignoreTags flags)
       else ScanIgnoreTags cfg;
     MaxWorkers := MaxWorkers cfg;
     Profile := Profile cfg |}.

(** The three validations of [RunE]: output format, output type, and the
    S3 parameters. *)
Definition validateFlags (opts : scanOptions) : option error :=
  if (String.eqb (outputFormat opts) "json" || String.eqb (outputFormat opts) "html")%bool
  then
    if (String.eqb (output opts) "filesystem" || String.eqb (output opts) "s3")%bool
    then
      if String.eqb (output opts) "s3" then
        if String.eqb (bucket opts) "" then
          Some "--bucket is required when --output=s3"
        else if String.eqb (bucketRegion opts) "" then
          Some "--bucket-region is required when --output=s3"
        else None
      else None
    else Some ("invalid output type: " +:+ output opts)
  else Some ("invalid output format: " +:+ outputFormat opts).

(** A run that stopped before [runScan] did anything. *)
Definition stopped (err : error) : RunOutcome :=
  {| returned := Some err; created := [];
     final := {| progress := ∅; accountResults := ∅; logged := [] |};
     metrics := {| TotalTasks := 0; CompletedTasks := 0; FailedTasks := 0 |} |}.

(** [RunE] of the command; [bindPFlag] is the first error of the
    [viper.BindPFlag] calls, if any. *)
Definition RunE {strings_pkg : StringsPkg} {aws : AwsEnv} (changed : string -> bool)
    (flags : ignoreFlags) (bindPFlag : option error) (cfg : Config) (opts : scanOptions)
    : RunOutcome :=
  let cfg := applyIgnoreFlags changed flags cfg in
  match bindPFlag with
  | Some err => stopped err
  | None =>
      match validateFlags opts with
      | Some err => stopped err
      | None => runScan cfg opts
      end
  end.

(** ** Role ARNs *)

(** [getRoleARN]; [callerAccount] is the account of the STS
    [GetCallerIdentity] call, made only when the name is not an ARN. *)
Definition getRoleARN (callerAccount : result string) (roleName : string) : result string :=
  if String.prefix "arn:aws:iam::" roleName then Ok roleName
  else match callerAccount with
       | Err err => Err ("failed to get account ID: " +:+ err)
       | Ok account => Ok ("arn:aws:iam::" +:+ account +:+ ":role/" +:+ roleName)
       end.

(** ** Writing the results *)

(** "Collect all results" of the HTML branch: every list of every account,
    in the iteration order of the two maps. *)
Definition allResults (ar : gmap string scanResult) : ScanResults :=
  map_to_list ar ≫= (fun accountResult =>
    map_to_list (Results accountResult.2) ≫= (fun scannerResults => scannerResults.2)).

(** The records the S3 branch marshals, one per entry of [accountResults];
    [accounts[0]] is out of range when there is an entry but no account. *)
Definition s3OutputData (accts : list Account) (ar : gmap string scanResult)
    : option (list scanResult) :=
  match accts, map_to_list ar with
  | _, [] => Some []
  | [], _ :: _ => None
  | first :: _, entries =>
      Some ((fun entry : string * scanResult =>
               {| srAccountID := entry.1;
                  srAccountName := Name first;
                  Results := Results entry.2 |}) <$> entries)
  end.

(** ** The guarded append with its nil dereference *)

(** The critical section as the code runs it: [accountResults[account.ID]]
    is a nil pointer when the account has no entry, and reading its
    [Results] panics; [None] stands for the panic. *)
Definition appendOrPanic (accountID label : string) (filteredResults : ScanResults)
    (ar : gmap string scanResult) : option (gmap string scanResult) :=
  match ar !! accountID with
  | Some _ => Some (appendResults accountID label filteredResults ar)
  | None => None
  end.

(** ** Further vocabulary *)

(** Whether a step is the complete of a unit with the given key. *)
Definition completes (k : string) (a : Action) : bool :=
  match a with
  | AComplete accountID region scanner =>
      String.eqb (Progress.key accountID region scanner) k
  | _ => false
  end.

(** Every start in the trace is followed by a complete of the same key. *)
Fixpoint releasing (trace : list Action) : bool :=
  match trace with
  | [] => true
  | a :: rest =>
      (match a with
       | AStart accountID _ region scanner =>
           existsb (completes (Progress.key accountID region scanner)) rest
       | _ => true
       end && releasing rest)%bool
  end.

(** Every entry of the map has a thread that still holds its complete. *)
Definition covered (threads : list (list Action)) (pm : gmap string scannerProgress)
    : Prop :=
  forall k, is_Some (pm !! k) ->
    exists j t a, threads !! j = Some t /\ a ∈ t /\ completes k a = true.

(** Whether an account gets its session: always without role chaining;
    with it, when the scanner role can be assumed and the identity check
    succeeds. *)
Definition authenticates {aws : AwsEnv} (opts : scanOptions) (baseSession : Session)
    (account : Account) : bool :=
  if chained opts then
    match AssumeRoleSession baseSession
            ("arn:aws:iam::" +:+ ID account +:+ ":role/" +:+ scannerRole opts) with
    | Ok scanSession =>
        match GetCallerIdentity scanSession with Ok _ => true | Err _ => false end
    | Err _ => false
    end
  else true.

(** Whether the registry rejects a scanner name. *)
Definition unknownScanner {aws : AwsEnv} (name : string) : bool :=
  match GetScanner name with Err _ => true | Ok _ => false end.

(** The tuple that identifies a unit. *)
Definition unitTuple (u : ScanUnit) : string * string * string :=
  (Label (unitScanner u), unitRegion u, ID (unitAccount u)).

(** The three strings a unit hands to the progress tracker. *)
Definition progressTuple (u : ScanUnit) : string * string * string :=
  (ID (unitAccount u), logRegionOf (unitScanner u) (unitRegion u), Label (unitScanner u)).

(** ** A concrete run: two accounts, two regions, one global scanner and
    one regional scanner *)

Module Scenario.

Definition prod : Account := {| ID := "111111111111"; Name := "prod" |}.
Definition dev : Account := {| ID := "222222222222"; Name := "dev" |}.

Definition volume (id name : string) (tags : list (string * string)) : ScanResult :=
  {| ResourceID := id; ResourceName := name; Tags := list_to_map tags;
     Details := None; AccountID := ""; AccountName := "" |}.

Definition iamRoles : Scanner :=
  {| Label := "IAM Roles";
     Scan := fun _ => Ok [volume "role-a" "Admin" []] |}.

Definition ebsVolumes : Scanner :=
  {| Label := "EBS Volumes";
     Scan := fun _ => Ok [volume "vol-123" "scratch" [("Env", "Test")];
                          volume "vol-456" "data" []] |}.

(** A scanner whose [Scan] call fails. *)
Definition broken : Scanner :=
  {| Label := "EBS Snapshots"; Scan := fun _ => Err "AccessDenied" |}.

Definition lookupScanner (name : string) : result Scanner :=
  if String.eqb name "iam-roles" then Ok iamRoles
  else if String.eqb name "ebs-volumes" then Ok ebsVolumes
  else if String.eqb name "ebs-snapshots" then Ok broken
  else Err "scanner not found".

(** A cloud in which every call succeeds, except that no regional session
    can be created in [eu-west-3]. *)
Definition cloud : AwsEnv :=
  {| validateS3Access := fun _ _ _ => None;
     ListScanners := ["iam-roles"; "ebs-volumes"];
     GetScanner := lookupScanner;
     GetSessionChain := fun _ _ => Ok (SessionHandle 1);
     NewSession := fun _ _ => Ok (SessionHandle 0);
     InitializeDefaultCostEstimator := fun _ => None;
     ListAccountsWithSession := fun _ => Ok [prod; dev];
     ListCurrentAccount := fun _ => Ok [prod];
     AssumeRoleSession := fun _ _ => Ok (SessionHandle 2);
     GetCallerIdentity := fun _ => Ok "arn:aws:sts::111111111111:assumed-role/Audit/s";
     GetAvailableRegions := fun _ => Ok ["us-east-1"; "us-west-2"];
     ValidateRegions := fun _ _ => None;
     GetSessionInRegion := fun _ region =>
       if String.eqb region "eu-west-3" then Err "no such region"
       else Ok (SessionHandle 3);
     InitSharedPool := fun _ => None |}.

Definition config : Config :=
  {| ScanIgnoreResourceIDs := ["vol-123"]; ScanIgnoreResourceNames := [];
     ScanIgnoreTags := ∅; MaxWorkers := 4; Profile := "default" |}.

Definition options : scanOptions :=
  {| regions := "us-east-1,us-west-2"; scanners := "iam-roles,ebs-volumes";
     output := "filesystem"; outputFormat := "html"; bucket := ""; bucketRegion := "";
     organizationRole := "OrgRole"; scannerRole := "AuditRole";
     daysUnused := 90; accounts := "" |}.

Definition sessions : gmap string Session :=
  {[ "111111111111" := SessionHandle 2; "222222222222" := SessionHandle 2 ]}.

End Scenario.

(** Concrete units and states of that run. *)
Module Running.
Import Scenario.

(** An IAM unit, as the expansion creates it. *)
Definition iamUnit : ScanUnit :=
  {| unitScanner := iamRoles; unitRegion := "us-east-1"; unitAccount := prod |}.

(** A regional unit whose body succeeds. *)
Definition ebsUnit : ScanUnit :=
  {| unitScanner := ebsVolumes; unitRegion := "us-west-2"; unitAccount := prod |}.

(** A unit whose [Scan] call fails, and one whose regional session cannot
    be created. *)
Definition scanFails : ScanUnit :=
  {| unitScanner := broken; unitRegion := "us-west-2"; unitAccount := prod |}.
Definition sessionFails : ScanUnit :=
  {| unitScanner := ebsVolumes; unitRegion := "eu-west-3"; unitAccount := dev |}.

(** The state [runScan] starts the batch in, for the two accounts. *)
Definition idle : ScanState :=
  {| progress := ∅; accountResults := initResults [prod; dev]; logged := [] |}.

(** The same with another unit already running. *)
Definition busy : ScanState :=
  step idle (AStart "222222222222" "dev" "us-west-2" "EBS Volumes").

Definition actionsOf (u : ScanUnit) : list Action :=
  unitActions (strings_pkg := asciiStrings) (aws := cloud) config options sessions u.

(** The progress map while the IAM unit runs: after its start, before its
    body. *)
Definition whileIamRuns : gmap string scannerProgress :=
  progress (run idle (take 2 (actionsOf iamUnit))).

End Running.

(** Further units and options. *)
Module Batches.
Import Scenario Running.

(** A second unit for the pair (prod, EBS Volumes), in another region. *)
Definition ebsEast : ScanUnit :=
  {| unitScanner := ebsVolumes; unitRegion := "us-east-1"; unitAccount := prod |}.

(** The two units overlapping: the steps of [ebsEast] start after the
    start of [ebsUnit] and its append lands between the update and the
    append of [ebsUnit]. *)
Definition overlapped : list Action :=
  take 3 (actionsOf ebsUnit) ++ take 4 (actionsOf ebsEast)
  ++ drop 3 (actionsOf ebsUnit) ++ drop 4 (actionsOf ebsEast).

(** An explicit account list that names no listed account. *)
Definition unknownAccount : scanOptions :=
  {| regions := "us-east-1,us-west-2"; scanners := "iam-roles,ebs-volumes";
     output := "filesystem"; outputFormat := "html"; bucket := ""; bucketRegion := "";
     organizationRole := "OrgRole"; scannerRole := "AuditRole";
     daysUnused := 90; accounts := "999999999999" |}.

(** No role given: only the current account is scanned. *)
Definition solo : scanOptions :=
  {| regions := "us-west-2"; scanners := "ebs-volumes";
     output := "filesystem"; outputFormat := "json"; bucket := ""; bucketRegion := "";
     organizationRole := ""; scannerRole := "";
     daysUnused := 90; accounts := "" |}.

(** The same cloud with an empty scanner registry. *)
Definition bare : AwsEnv :=
  {| validateS3Access := fun _ _ _ => None;
     ListScanners := [];
     GetScanner := lookupScanner;
     GetSessionChain := fun _ _ => Ok (SessionHandle 1);
     NewSession := fun _ _ => Ok (SessionHandle 0);
     InitializeDefaultCostEstimator := fun _ => None;
     ListAccountsWithSession := fun _ => Ok [prod; dev];
     ListCurrentAccount := fun _ => Ok [prod];
     AssumeRoleSession := fun _ _ => Ok (SessionHandle 2);
     GetCallerIdentity := fun _ => Ok "arn:aws:sts::111111111111:assumed-role/Audit/s";
     GetAvailableRegions := fun _ => Ok ["us-east-1"; "us-west-2"];
     ValidateRegions := fun _ _ => None;
     GetSessionInRegion := fun _ _ => Ok (SessionHandle 3);
     InitSharedPool := fun _ => None |}.

(** One scanner named twice, one region, the current account: the two
    units of the batch have one and the same progress key. *)
Definition duplicated : scanOptions :=
  {| regions := "us-west-2"; scanners := "ebs-volumes,ebs-volumes";
     output := "filesystem"; outputFormat := "json"; bucket := ""; bucketRegion := "";
     organizationRole := ""; scannerRole := "";
     daysUnused := 90; accounts := "" |}.

(** The steps of a unit of that run, and the state its batch starts in. *)
Definition duplicatedActions (u : ScanUnit) : list Action :=
  unitActions (strings_pkg := asciiStrings) (aws := cloud) config duplicated
    {[ "111111111111" := SessionHandle 0 ]} u.

Definition duplicatedStart : ScanState :=
  {| progress := ∅; accountResults := initResults [prod]; logged := [] |}.

(** No scanner named: every scanner of the registry. *)
Definition allScanners : scanOptions :=
  {| regions := "us-west-2"; scanners := "";
     output := "filesystem"; outputFormat := "json"; bucket := ""; bucketRegion := "";
     organizationRole := ""; scannerRole := "";
     daysUnused := 90; accounts := "" |}.

End Batches.

(** * Properties *)

(** ** Task expansion *)

Lemma length_units_of_region (scanner : Scanner) (region : string) (accts : list Account) :
  length (List.map (fun account =>
            {| unitScanner := scanner; unitRegion := region; unitAccount := account |})
            accts) = length accts.
Proof. apply List.length_map. Qed.

Lemma length_units_of_scanner (scanner : Scanner) (rgns : list string)
    (accts : list Account) :
  length (flat_map (fun region =>
            List.map (fun account =>
              {| unitScanner := scanner; unitRegion := region; unitAccount := account |})
              accts) rgns)
  = (length accts * length rgns)%nat.
Proof.
  induction rgns as [|region rgns IH]; simpl.
  - lia.
  - rewrite length_app, length_units_of_region, IH. lia.
Qed.

Lemma expandTasks_cons (scanner : Scanner) (scnrs : list Scanner) (rgns : list string)
    (accts : list Account) :
  expandTasks (scanner :: scnrs) rgns accts
  = (flat_map (fun region =>
       List.map (fun account =>
         {| unitScanner := scanner; unitRegion := region; unitAccount := account |})
         accts) (scanRegionsFor rgns scanner)
     ++ expandTasks scnrs rgns accts)%list.
Proof. reflexivity. Qed.

Lemma length_expandTasks (scnrs : list Scanner) (rgns : list string) (accts : list Account) :
  length (expandTasks scnrs rgns accts)
  = sum_list ((fun scanner => (length accts * length (scanRegionsFor rgns scanner))%nat)
              <$> scnrs).
Proof.
  induction scnrs as [|scanner scnrs IH].
  - reflexivity.
  - rewrite expandTasks_cons, length_app, length_units_of_scanner, IH. reflexivity.
Qed.

Lemma fold_left_count {A : Type} (l : list A) (n : Z) :
  fold_left (fun n _ => n + 1) l n = n + Z.of_nat (length l).
Proof.
  revert n. induction l as [|x l IH]; intros n; simpl.
  - lia.
  - rewrite IH. lia.
Qed.

Lemma fold_left_count_regions {A : Type} (accts : list Account) (rgns : list A) (n : Z) :
  fold_left (fun n _ => fold_left (fun n _ => n + 1) accts n) rgns n
  = n + Z.of_nat (length accts * length rgns).
Proof.
  revert n. induction rgns as [|r rgns IH]; intros n; simpl.
  - lia.
  - rewrite IH, fold_left_count. lia.
Qed.

Lemma actualTasks_from (scnrs : list Scanner) (rgns : list string) (accts : list Account)
    (n : Z) :
  fold_left (fun n scanner =>
    fold_left (fun n _ => fold_left (fun n _ => n + 1) accts n)
      (scanRegionsFor rgns scanner) n) scnrs n
  = n + Z.of_nat (length (expandTasks scnrs rgns accts)).
Proof.
  revert n. induction scnrs as [|scanner scnrs IH]; intros n.
  - simpl. lia.
  - rewrite expandTasks_cons, length_app, length_units_of_scanner. simpl.
    rewrite IH, fold_left_count_regions. lia.
Qed.

(** C1. The task expansion produces, for every scanner, one unit per
    account and effective region: the number of units is the sum over the
    scanners of |accounts| * |effective regions|, where the effective
    regions of an IAM scanner are the single region us-east-1 whatever was
    requested and those of any other scanner are the requested regions.
    The counter [actualTasks] agrees, and two accounts, two regions, one
    IAM scanner and one regional scanner give six units. *)
Theorem task_count (scnrs : list Scanner) (rgns : list string) (accts : list Account) :
  length (expandTasks scnrs rgns accts)
  = sum_list ((fun scanner => (length accts * length (scanRegionsFor rgns scanner))%nat)
              <$> scnrs)
  /\ (forall scanner,
        scanRegionsFor rgns scanner
        = if isIAMScanner scanner then ["us-east-1"] else rgns)
  /\ (forall scanner,
        length (scanRegionsFor rgns scanner)
        = if isIAMScanner scanner then 1%nat else length rgns)
  /\ actualTasks scnrs rgns accts = Z.of_nat (length (expandTasks scnrs rgns accts))
  /\ length (expandTasks [Scenario.iamRoles; Scenario.ebsVolumes]
               ["us-east-1"; "us-west-2"] [Scenario.prod; Scenario.dev]) = 6%nat.
Proof.
  split; [apply length_expandTasks|].
  split; [reflexivity|].
  split; [intros scanner; unfold scanRegionsFor; destruct (isIAMScanner scanner); reflexivity|].
  split; [unfold actualTasks; rewrite actualTasks_from; lia|].
  reflexivity.
Qed.

(** The scenario, through [runScan]: six units are created and each IAM
    unit is logged under the region label "global". *)
Example scenario_six_units :
  length (created (runScan (strings_pkg := asciiStrings) (aws := Scenario.cloud)
                     Scenario.config Scenario.options)) = 6%nat
  /\ List.filter (fun e => match e with
                           | LogScannerStart "IAM Roles" _ _ region => true
                           | _ => false
                           end)
       (logged (final (runScan (strings_pkg := asciiStrings) (aws := Scenario.cloud)
                         Scenario.config Scenario.options)))
     = [LogScannerStart "IAM Roles" "111111111111" "prod" "global";
        LogScannerStart "IAM Roles" "222222222222" "dev" "global"].
Proof. split; vm_compute; reflexivity. Qed.

(** ** Result filter *)

Section FilterProperties.
Context {strings_pkg : StringsPkg}.
Variable cfg : Config.

Lemma ignoredByID_true (r : ScanResult) :
  ignoredByID cfg r = true
  <-> exists ignoreID, ignoreID ∈ ScanIgnoreResourceIDs cfg
                       /\ EqualFold (ResourceID r) ignoreID = true.
Proof.
  unfold ignoredByID. rewrite existsb_exists.
  split; intros [x [Hin Hx]]; exists x; split; auto; by apply list_elem_of_In.
Qed.

Lemma ignoredByName_true (r : ScanResult) :
  ignoredByName cfg r = true
  <-> exists ignoreName, ignoreName ∈ ScanIgnoreResourceNames cfg
                         /\ EqualFold (ResourceName r) ignoreName = true.
Proof.
  unfold ignoredByName. rewrite existsb_exists.
  split; intros [x [Hin Hx]]; exists x; split; auto; by apply list_elem_of_In.
Qed.

Lemma ignoredByTag_true (r : ScanResult) :
  ignoredByTag cfg r = true
  <-> exists ignoreKey ignoreValue tagKey tagValue,
        ScanIgnoreTags cfg !! ignoreKey = Some ignoreValue
        /\ Tags r !! tagKey = Some tagValue
        /\ EqualFold tagKey ignoreKey = true
        /\ EqualFold tagValue ignoreValue = true.
Proof.
  unfold ignoredByTag. rewrite existsb_exists. split.
  - intros [[ik iv] [Hin Hinner]]. apply existsb_exists in Hinner.
    destruct Hinner as [[tk tv] [Hin' Hm]]. simpl in Hm.
    apply andb_true_iff in Hm as [Hk Hv].
    exists ik, iv, tk, tv. repeat split; auto.
    + by apply elem_of_map_to_list, list_elem_of_In.
    + by apply elem_of_map_to_list, list_elem_of_In.
  - intros (ik & iv & tk & tv & Hi & Ht & Hk & Hv).
    exists (ik, iv). split.
    + by apply list_elem_of_In, elem_of_map_to_list.
    + apply existsb_exists. exists (tk, tv). split.
      * by apply list_elem_of_In, elem_of_map_to_list.
      * simpl. by rewrite Hk, Hv.
Qed.

Lemma ignoredByTag_no_tags (r : ScanResult) :
  size (Tags r) = 0%nat -> ignoredByTag cfg r = false.
Proof.
  intros Hsize. apply map_size_empty_inv in Hsize.
  unfold ignoredByTag. rewrite Hsize, map_to_list_empty.
  induction (map_to_list (ScanIgnoreTags cfg)) as [|x l IH]; simpl; auto.
Qed.

(** The flag is the disjunction of the three checks. *)
Lemma shouldIgnore_orb (r : ScanResult) :
  shouldIgnore cfg r = (ignoredByID cfg r || ignoredByName cfg r || ignoredByTag cfg r)%bool.
Proof.
  unfold shouldIgnore.
  destruct (ignoredByID cfg r); simpl; [reflexivity|].
  destruct (ignoredByName cfg r); simpl; [reflexivity|].
  destruct (0 <? Z.of_nat (size (Tags r))) eqn:Hlen.
  - destruct (ignoredByTag cfg r); reflexivity.
  - rewrite ignoredByTag_no_tags; [reflexivity|].
    apply Z.ltb_ge in Hlen. lia.
Qed.

Lemma filterResults_filter (results : ScanResults) :
  filterResults cfg results = List.filter (fun r => negb (shouldIgnore cfg r)) results.
Proof.
  induction results as [|r results IH]; simpl; [reflexivity|].
  rewrite IH. reflexivity.
Qed.

Lemma filter_twice {A : Type} (p q : A -> bool) (l : list A) :
  List.filter p (List.filter q l) = List.filter (fun x => (q x && p x)%bool) l.
Proof.
  induction l as [|x l IH]; simpl; [reflexivity|].
  destruct (q x); simpl; [destruct (p x)|]; rewrite IH; reflexivity.
Qed.

(** C2. The filter keeps the results in order and drops a result exactly
    when a rule matches it: its resource ID is [EqualFold] to an ignored
    ID, or its resource name is [EqualFold] to an ignored name, or one of
    its tags has key and value [EqualFold] to those of an ignore tag.
    Every other result is retained. *)
Theorem filter_drops_iff_rule_matches (results : ScanResults) (r : ScanResult) :
  (shouldIgnore cfg r = true
   <-> (exists ignoreID, ignoreID ∈ ScanIgnoreResourceIDs cfg
                         /\ EqualFold (ResourceID r) ignoreID = true)
       \/ (exists ignoreName, ignoreName ∈ ScanIgnoreResourceNames cfg
                              /\ EqualFold (ResourceName r) ignoreName = true)
       \/ (exists ignoreKey ignoreValue tagKey tagValue,
             ScanIgnoreTags cfg !! ignoreKey = Some ignoreValue
             /\ Tags r !! tagKey = Some tagValue
             /\ EqualFold tagKey ignoreKey = true
             /\ EqualFold tagValue ignoreValue = true))
  /\ filterResults cfg results = List.filter (fun r => negb (shouldIgnore cfg r)) results
  /\ (r ∈ filterResults cfg results <-> r ∈ results /\ shouldIgnore cfg r = false).
Proof.
  split; [|split].
  - rewrite shouldIgnore_orb, !orb_true_iff.
    rewrite ignoredByID_true, ignoredByName_true, ignoredByTag_true. tauto.
  - apply filterResults_filter.
  - rewrite filterResults_filter, !list_elem_of_In, filter_In, negb_true_iff. tauto.
Qed.

(** C8. Filtering is idempotent, and applying the three rule categories
    one after the other, in any of the six orders, retains the same
    results as the filter's own ID-then-name-then-tag pass. *)
Theorem filter_idempotent_commutative (results : ScanResults) :
  filterResults cfg (filterResults cfg results) = filterResults cfg results
  /\ spec_filterByTag cfg (spec_filterByName cfg (spec_filterByID cfg results))
     = filterResults cfg results
  /\ spec_filterByName cfg (spec_filterByTag cfg (spec_filterByID cfg results))
     = filterResults cfg results
  /\ spec_filterByTag cfg (spec_filterByID cfg (spec_filterByName cfg results))
     = filterResults cfg results
  /\ spec_filterByID cfg (spec_filterByTag cfg (spec_filterByName cfg results))
     = filterResults cfg results
  /\ spec_filterByName cfg (spec_filterByID cfg (spec_filterByTag cfg results))
     = filterResults cfg results
  /\ spec_filterByID cfg (spec_filterByName cfg (spec_filterByTag cfg results))
     = filterResults cfg results.
Proof.
  unfold spec_filterByID, spec_filterByName, spec_filterByTag.
  rewrite !filterResults_filter, !filter_twice.
  repeat split; apply filter_ext; intros r; rewrite shouldIgnore_orb;
    destruct (ignoredByID cfg r), (ignoredByName cfg r), (ignoredByTag cfg r); reflexivity.
Qed.

End FilterProperties.

(** The scenario of the specification: with [vol-123] on the ignore list,
    a unit that finds [vol-123] and [vol-456] retains only [vol-456]; the
    comparison ignores case. *)
Example scenario_filter :
  ResourceID <$> filterResults (strings_pkg := asciiStrings) Scenario.config
                   [Scenario.volume "VOL-123" "scratch" []; Scenario.volume "vol-456" "data" []]
  = ["vol-456"].
Proof. vm_compute. reflexivity. Qed.

(** ** Progress tracker *)

Module ProgressFacts.
Import Progress.

Lemma consistent_empty : consistent ∅.
Proof. intros k p Hk. by rewrite lookup_empty in Hk. Qed.

Lemma consistent_start (accountID accountName region scanner : string)
    (s : gmap string scannerProgress) :
  consistent s -> consistent (startScanner accountID accountName region scanner s).
Proof.
  intros Hs k p. unfold startScanner. rewrite lookup_insert.
  case_decide as Hk.
  - intros [= <-]. by subst k.
  - apply Hs.
Qed.

Lemma consistent_update (accountID region scanner : string) (count : Z)
    (s : gmap string scannerProgress) :
  consistent s -> consistent (updateResultCount accountID region scanner count s).
Proof.
  intros Hs k p. unfold updateResultCount.
  destruct (s !! key accountID region scanner) as [prog|] eqn:Hprog; [|apply Hs].
  rewrite lookup_insert. case_decide as Hk; [|apply Hs].
  intros [= <-]. subst k. apply (Hs _ _ Hprog).
Qed.

Lemma consistent_complete (accountID region scanner : string)
    (s : gmap string scannerProgress) :
  consistent s -> consistent (completeScanner accountID region scanner s).
Proof.
  intros Hs k p. unfold completeScanner. rewrite lookup_delete.
  case_decide; [done|apply Hs].
Qed.

Lemma elem_of_getRunning (s : gmap string scannerProgress) (p : scannerProgress) :
  p ∈ getRunning s <-> exists k, s !! k = Some p.
Proof.
  unfold getRunning. rewrite list_elem_of_fmap. split.
  - intros [[k p'] [-> Hin]]. exists k. by apply elem_of_map_to_list.
  - intros [k Hk]. exists (k, p). split; [done|]. by apply elem_of_map_to_list.
Qed.

(** No record of a consistent map spells a key that is not in the map. *)
Lemma getRunning_absent (s : gmap string scannerProgress) (k : string) :
  consistent s -> s !! k = None ->
  forall p, p ∈ getRunning s -> keyOf p <> k.
Proof.
  intros Hs Hk p Hp Heq. apply elem_of_getRunning in Hp as [k' Hk'].
  rewrite (Hs _ _ Hk') in Heq. subst k'. congruence.
Qed.

End ProgressFacts.

(** C10. [updateResultCount] on a key that has no entry returns the map
    unchanged, so no entry is created; on a key that has one, the entry
    keeps its account ID, account name, region and scanner and takes the
    new count; every other key maps to what it did, and the set of keys
    is the same in both cases. *)
Theorem updateResultCount_frame (s : gmap string scannerProgress)
    (accountID region scanner : string) (count : Z) :
  let k := Progress.key accountID region scanner in
  let s' := Progress.updateResultCount accountID region scanner count s in
  (s !! k = None -> s' = s)
  /\ (forall prog, s !! k = Some prog ->
        s' !! k = Some {| pAccountID := pAccountID prog;
                          pAccountName := pAccountName prog;
                          pRegion := pRegion prog;
                          pScanner := pScanner prog;
                          pResultCount := count |})
  /\ (forall k', k' <> k -> s' !! k' = s !! k')
  /\ dom s' = dom s.
Proof.
  intros k s'. subst k s'. unfold Progress.updateResultCount.
  destruct (s !! Progress.key accountID region scanner) as [prog|] eqn:Hprog.
  - split; [discriminate|]. split.
    + intros prog' [= <-]. by rewrite lookup_insert_eq.
    + split.
      * intros k' Hk'. by rewrite lookup_insert_ne.
      * rewrite dom_insert_L. apply elem_of_dom_2 in Hprog.
        apply subseteq_union_1_L, singleton_subseteq_l, Hprog.
  - split; [reflexivity|]. split; [discriminate|]. split; reflexivity.
Qed.

(** An update for a unit that is not running creates nothing, and an
    update for a running unit changes its count only. *)
Example updateResultCount_examples :
  Progress.updateResultCount "111111111111" "us-west-2" "EBS Volumes" 7 ∅ = ∅
  /\ Progress.getRunning
       (Progress.updateResultCount "111111111111" "us-west-2" "EBS Volumes" 7
          (Progress.startScanner "111111111111" "prod" "us-west-2" "EBS Volumes" ∅))
     = [{| pAccountID := "111111111111"; pAccountName := "prod";
           pRegion := "us-west-2"; pScanner := "EBS Volumes"; pResultCount := 7 |}].
Proof. split; vm_compute; reflexivity. Qed.

(** ** The unit body *)

Lemma run_app (st : ScanState) (trace1 trace2 : list Action) :
  run st (trace1 ++ trace2) = run (run st trace1) trace2.
Proof. apply foldl_app. Qed.

Lemma step_consistent (st : ScanState) (a : Action) :
  Progress.consistent (progress st) -> Progress.consistent (progress (step st a)).
Proof.
  destruct a; simpl; auto using ProgressFacts.consistent_start,
    ProgressFacts.consistent_update, ProgressFacts.consistent_complete.
Qed.

Lemma run_consistent (trace : list Action) (st : ScanState) :
  Progress.consistent (progress st) -> Progress.consistent (progress (run st trace)).
Proof.
  revert st. induction trace as [|a trace IH]; intros st Hst; [done|].
  apply IH, step_consistent, Hst.
Qed.

(** Case analysis on membership in a list that is written out. *)
Ltac elems_of H :=
  repeat (let Heq := fresh "Heq" in
          apply elem_of_cons in H as [Heq|H];
          [first [discriminate Heq | injection Heq as ? ? ?; subst | subst]|]);
  try (by apply elem_of_nil in H).

Section UnitProperties.
Context {strings_pkg : StringsPkg} {aws : AwsEnv}.
Variable cfg : Config.
Variable opts : scanOptions.
Variable accountSessions : gmap string Session.

Abbreviation body := (unitBody cfg opts accountSessions).
Abbreviation actions := (unitActions cfg opts accountSessions).

Lemma unitActions_split (u : ScanUnit) :
  actions u
  = ([ALog (LogScannerStart (Label (unitScanner u)) (ID (unitAccount u))
              (Name (unitAccount u)) (logRegionOf (unitScanner u) (unitRegion u)));
      AStart (ID (unitAccount u)) (Name (unitAccount u))
        (logRegionOf (unitScanner u) (unitRegion u)) (Label (unitScanner u))]
     ++ (body u).1)
    ++ [AComplete (ID (unitAccount u)) (logRegionOf (unitScanner u) (unitRegion u))
          (Label (unitScanner u))].
Proof. unfold unitActions. by rewrite <- app_assoc. Qed.

(** The three outcomes of the body. *)
Lemma unitBody_cases (u : ScanUnit) :
  (exists err, GetSessionInRegion (accountSessions !! ID (unitAccount u)) (unitRegion u)
               = Err err
     /\ body u
        = ([ALog (LogScannerError (Label (unitScanner u)) (ID (unitAccount u))
                    (Name (unitAccount u)) (logRegionOf (unitScanner u) (unitRegion u)) err)],
           Some ("failed to create regional session for account "
                 +:+ ID (unitAccount u) +:+ ": " +:+ err)))
  \/ (exists regionSession err,
        GetSessionInRegion (accountSessions !! ID (unitAccount u)) (unitRegion u)
        = Ok regionSession
        /\ Scan (unitScanner u) {| soRegion := unitRegion u; soDaysUnused := daysUnused opts;
                                   soSession := regionSession |} = Err err
        /\ body u
           = ([ALog (LogScannerError (Label (unitScanner u)) (ID (unitAccount u))
                       (Name (unitAccount u)) (logRegionOf (unitScanner u) (unitRegion u))
                       err)],
              Some err))
  \/ (exists regionSession results,
        GetSessionInRegion (accountSessions !! ID (unitAccount u)) (unitRegion u)
        = Ok regionSession
        /\ Scan (unitScanner u) {| soRegion := unitRegion u; soDaysUnused := daysUnused opts;
                                   soSession := regionSession |} = Ok results
        /\ body u
           = ([AUpdate (ID (unitAccount u)) (logRegionOf (unitScanner u) (unitRegion u))
                 (Label (unitScanner u)) (Z.of_nat (length (filterResults cfg results)));
               AAppend (ID (unitAccount u)) (Label (unitScanner u))
                 (retained cfg (unitScanner u) (unitRegion u) (unitAccount u) results);
               ALog (LogScannerComplete (Label (unitScanner u)) (ID (unitAccount u))
                       (Name (unitAccount u)) (logRegionOf (unitScanner u) (unitRegion u))
                       (retained cfg (unitScanner u) (unitRegion u) (unitAccount u) results))],
              None)).
Proof.
  unfold unitBody.
  destruct (GetSessionInRegion _ _) as [regionSession|err] eqn:Hsession.
  - right.
    destruct (Scan _ _) as [results|err] eqn:Hscan.
    + right. exists regionSession, results. by rewrite Hscan.
    + left. exists regionSession, err. by rewrite Hscan.
  - left. by exists err.
Qed.

(** Every progress step of a unit works on the unit's key. *)
Lemma unit_progress_keys (u : ScanUnit) (a : Action) (k : string) :
  a ∈ actions u -> progressKeyOf a = Some k -> k = unitKey u.
Proof.
  rewrite unitActions_split. unfold unitKey. intros Ha Hk.
  apply elem_of_app in Ha as [Ha|Ha]; [apply elem_of_app in Ha as [Ha|Ha]|].
  - elems_of Ha; simpl in Hk; congruence.
  - destruct (unitBody_cases u) as [(err & _ & Hb)|[(rs & err & _ & _ & Hb)
                                                    |(rs & results & _ & _ & Hb)]];
      rewrite Hb in Ha; simpl in Ha; elems_of Ha; simpl in Hk; congruence.
  - elems_of Ha; simpl in Hk; congruence.
Qed.

(** When the unit returns, its key is gone from the map. *)
Lemma unit_progress_released (u : ScanUnit) (st : ScanState) :
  progress (run st (actions u)) !! unitKey u = None.
Proof.
  rewrite unitActions_split, run_app. simpl.
  unfold Progress.completeScanner, unitKey. apply lookup_delete_eq.
Qed.

End UnitProperties.

(** A key without entry stays without entry until a unit with that key
    starts. *)
Lemma absent_step (st : ScanState) (a : Action) (k : string) :
  progress st !! k = None -> starts k a = false -> progress (step st a) !! k = None.
Proof.
  intros Hk Ha. destruct a; cbn [step progress]; try done.
  - unfold Progress.startScanner. apply String.eqb_neq in Ha. by rewrite lookup_insert_ne.
  - unfold Progress.updateResultCount.
    destruct (progress st !! Progress.key accountID region scanner) as [prog|] eqn:Hprog;
      [|done].
    rewrite lookup_insert_ne; [done|]. intros Heq. rewrite Heq in Hprog. congruence.
  - unfold Progress.completeScanner. rewrite lookup_delete. by case_decide.
Qed.

Lemma absent_run (trace : list Action) (st : ScanState) (k : string) :
  progress st !! k = None -> forallb (fun a => negb (starts k a)) trace = true ->
  progress (run st trace) !! k = None.
Proof.
  revert st. induction trace as [|a trace IH]; intros st Hk Htrace; [done|].
  simpl in Htrace. apply andb_true_iff in Htrace as [Ha Htrace].
  apply negb_true_iff in Ha. simpl. apply IH; [|done]. by apply absent_step.
Qed.

Lemma elem_of_expandTasks (scnrs : list Scanner) (rgns : list string)
    (accts : list Account) (u : ScanUnit) :
  u ∈ expandTasks scnrs rgns accts
  <-> unitScanner u ∈ scnrs
      /\ unitRegion u ∈ scanRegionsFor rgns (unitScanner u)
      /\ unitAccount u ∈ accts.
Proof.
  unfold expandTasks. rewrite !list_elem_of_In, in_flat_map. split.
  - intros (scanner & Hs & Hin). apply in_flat_map in Hin as (region & Hr & Hin).
    apply in_map_iff in Hin as (account & <- & Ha). simpl. auto.
  - intros (Hs & Hr & Ha). exists (unitScanner u). split; [done|].
    apply in_flat_map. exists (unitRegion u). split; [done|].
    apply in_map_iff. exists (unitAccount u). split; [by destruct u|done].
Qed.

Section ProgressClaims.
Context {strings_pkg : StringsPkg} {aws : AwsEnv}.
Variable cfg : Config.
Variable opts : scanOptions.
Variable accountSessions : gmap string Session.

(** C3, as amended. The deferred [completeScanner] is the last step of a
    unit on every exit path of its body, with the unit's own key. In the
    state the call returns in, whatever it was before, the map has no
    entry under the unit's key and no record of the snapshot [getRunning]
    spells that key; the key stays absent through any later steps as long
    as none of them starts a unit with the same key. So it is after a unit
    has run, be it to an error or to the end. *)
Theorem progress_entry_released (u : ScanUnit) (st : ScanState)
    (Hst : Progress.consistent (progress st)) :
  let complete := AComplete (ID (unitAccount u))
                    (logRegionOf (unitScanner u) (unitRegion u)) (Label (unitScanner u)) in
  last (unitActions cfg opts accountSessions u) = Some complete
  /\ progressKeyOf complete = Some (unitKey u)
  /\ (forall st', progress (step st' complete) !! unitKey u = None)
  /\ (forall st', Progress.consistent (progress st') ->
        forall p, p ∈ Progress.getRunning (progress (step st' complete)) ->
                  Progress.keyOf p <> unitKey u)
  /\ (forall st' later, forallb (fun a => negb (starts (unitKey u) a)) later = true ->
        progress (run (step st' complete) later) !! unitKey u = None)
  /\ progress (runUnit cfg opts accountSessions u st).1 !! unitKey u = None
  /\ (forall p, p ∈ Progress.getRunning (progress (runUnit cfg opts accountSessions u st).1) ->
                Progress.keyOf p <> unitKey u).
Proof.
  intros complete. subst complete.
  assert (forall st', progress (step st' (AComplete (ID (unitAccount u))
            (logRegionOf (unitScanner u) (unitRegion u)) (Label (unitScanner u))))
          !! unitKey u = None) as Hgone.
  { intros st'. simpl. apply lookup_delete_eq. }
  split; [rewrite unitActions_split; apply last_snoc|].
  split; [reflexivity|].
  split; [exact Hgone|].
  split.
  { intros st' Hst'. apply ProgressFacts.getRunning_absent; [|apply Hgone].
    by apply step_consistent. }
  split; [intros st' later Hlater; by apply absent_run|].
  split; [apply unit_progress_released|].
  apply ProgressFacts.getRunning_absent; [|apply unit_progress_released].
  by apply run_consistent.
Qed.

(** C6, as amended. A unit of an IAM scanner created by the task expansion
    scans in us-east-1, but the region it hands to the progress tracker is
    the label "global": the record's region and the key are built from
    "global", the same label that is logged; start, update and complete
    all use that one key, and the reporter prints "global". *)
Theorem iam_unit_progress_region (scnrs : list Scanner) (rgns : list string)
    (accts : list Account) (u : ScanUnit)
    (Hu : u ∈ expandTasks scnrs rgns accts)
    (Hiam : isIAMScanner (unitScanner u) = true) :
  let started := {| pAccountID := ID (unitAccount u);
                    pAccountName := Name (unitAccount u);
                    pRegion := "global";
                    pScanner := Label (unitScanner u);
                    pResultCount := 0 |} in
  unitRegion u = "us-east-1"
  /\ unitKey u = Progress.key (ID (unitAccount u)) "global" (Label (unitScanner u))
  /\ (exists rest,
        unitActions cfg opts accountSessions u
        = ALog (LogScannerStart (Label (unitScanner u)) (ID (unitAccount u))
                  (Name (unitAccount u)) "global")
          :: AStart (ID (unitAccount u)) (Name (unitAccount u)) "global"
               (Label (unitScanner u))
          :: rest)
  /\ last (unitActions cfg opts accountSessions u)
     = Some (AComplete (ID (unitAccount u)) "global" (Label (unitScanner u)))
  /\ (forall a k, a ∈ unitActions cfg opts accountSessions u ->
                  progressKeyOf a = Some k -> k = unitKey u)
  /\ (forall st,
        progress (step st (AStart (ID (unitAccount u)) (Name (unitAccount u)) "global"
                             (Label (unitScanner u))))
        !! unitKey u = Some started)
  /\ Progress.keyOf started = unitKey u
  /\ Progress.displayRegion started = "global".
Proof.
  intros started. subst started.
  apply elem_of_expandTasks in Hu as (_ & Hregion & _).
  unfold scanRegionsFor in Hregion. rewrite Hiam in Hregion.
  apply list_elem_of_singleton in Hregion.
  assert (logRegionOf (unitScanner u) (unitRegion u) = "global") as Hlog.
  { unfold logRegionOf. by rewrite Hiam. }
  assert (unitKey u = Progress.key (ID (unitAccount u)) "global" (Label (unitScanner u)))
    as Hkey.
  { unfold unitKey. by rewrite Hlog. }
  split; [done|]. split; [done|]. split.
  { rewrite unitActions_split, Hlog. simpl. eauto. }
  split; [rewrite unitActions_split, Hlog; apply last_snoc|].
  split; [intros a k; apply unit_progress_keys|].
  split; [intros st; rewrite Hkey; simpl; apply lookup_insert_eq|].
  split; [by rewrite Hkey|].
  reflexivity.
Qed.

End ProgressClaims.


Lemma busy_consistent : Progress.consistent (progress Running.busy).
Proof. apply step_consistent, ProgressFacts.consistent_empty. Defined.

Lemma progress_entry_released_witness :
  Progress.consistent (progress Running.busy)
  /\ is_Some (unitError (strings_pkg := asciiStrings) (aws := Scenario.cloud)
                Scenario.config Scenario.options Scenario.sessions Running.scanFails)
  /\ progress (runUnit (strings_pkg := asciiStrings) (aws := Scenario.cloud)
                 Scenario.config Scenario.options Scenario.sessions
                 Running.scanFails Running.busy).1
     !! unitKey Running.scanFails = None.
Proof.
  split; [exact busy_consistent|].
  split; [vm_compute; eauto|].
  apply (progress_entry_released (strings_pkg := asciiStrings) (aws := Scenario.cloud)
           Scenario.config Scenario.options Scenario.sessions
           Running.scanFails Running.busy busy_consistent).
Defined.

(** C6 as stated does not hold: while an IAM unit runs, the record of the
    progress map has region "global", not us-east-1, and sits under the key
    built from "global"; nothing is stored under the key built from
    us-east-1. *)
Lemma iam_progress_region_not_canonical :
  Running.iamUnit ∈ expandTasks [Scenario.iamRoles] ["us-east-1"; "us-west-2"] [Scenario.prod]
  /\ isIAMScanner (unitScanner Running.iamUnit) = true
  /\ Progress.getRunning Running.whileIamRuns
     = [{| pAccountID := "111111111111"; pAccountName := "prod"; pRegion := "global";
           pScanner := "IAM Roles"; pResultCount := 0 |}]
  /\ Running.whileIamRuns !! "111111111111:global:IAM Roles"
     = Some {| pAccountID := "111111111111"; pAccountName := "prod"; pRegion := "global";
               pScanner := "IAM Roles"; pResultCount := 0 |}
  /\ Running.whileIamRuns !! Progress.key "111111111111" "us-east-1" "IAM Roles" = None
  /\ ~ (forall p, p ∈ Progress.getRunning Running.whileIamRuns -> pRegion p = "us-east-1").
Proof.
  split; [apply elem_of_expandTasks; repeat split; simpl; apply list_elem_of_here|].
  split; [reflexivity|].
  split; [vm_compute; reflexivity|].
  split; [vm_compute; reflexivity|].
  split; [vm_compute; reflexivity|].
  intros Hall.
  discriminate (Hall {| pAccountID := "111111111111"; pAccountName := "prod";
                        pRegion := "global"; pScanner := "IAM Roles"; pResultCount := 0 |}
                  ltac:(apply ProgressFacts.elem_of_getRunning;
                        exists "111111111111:global:IAM Roles"; vm_compute; reflexivity)).
Qed.

Lemma iam_unit_progress_region_witness :
  Running.iamUnit ∈ expandTasks [Scenario.iamRoles] ["us-east-1"; "us-west-2"] [Scenario.prod]
  /\ isIAMScanner (unitScanner Running.iamUnit) = true
  /\ unitRegion Running.iamUnit = "us-east-1"
  /\ unitKey Running.iamUnit = Progress.key "111111111111" "global" "IAM Roles".
Proof.
  assert (Running.iamUnit
          ∈ expandTasks [Scenario.iamRoles] ["us-east-1"; "us-west-2"] [Scenario.prod]) as Hu.
  { apply elem_of_expandTasks; repeat split; simpl; apply list_elem_of_here. }
  split; [exact Hu|]. split; [reflexivity|].
  pose proof (iam_unit_progress_region (strings_pkg := asciiStrings) (aws := Scenario.cloud)
                Scenario.config Scenario.options Scenario.sessions
                [Scenario.iamRoles] ["us-east-1"; "us-west-2"] [Scenario.prod]
                Running.iamUnit Hu eq_refl) as (Hregion & Hkey & _).
  split; [exact Hregion|exact Hkey].
Defined.

(** ** Annotation and failure of a unit *)

Lemma accountResults_step_eq (st1 st2 : ScanState) (a : Action) :
  accountResults st1 = accountResults st2 ->
  accountResults (step st1 a) = accountResults (step st2 a).
Proof. intros Heq. destruct a; simpl; congruence. Qed.

Lemma accountResults_run_eq (trace : list Action) (st1 st2 : ScanState) :
  accountResults st1 = accountResults st2 ->
  accountResults (run st1 trace) = accountResults (run st2 trace).
Proof.
  revert st1 st2. induction trace as [|a trace IH]; intros st1 st2 Heq; [done|].
  apply IH, accountResults_step_eq, Heq.
Qed.

(** A trace none of whose steps is an append leaves the results alone. *)
Lemma accountResults_run_no_append (trace : list Action) (st : ScanState) :
  appends trace = [] -> accountResults (run st trace) = accountResults st.
Proof.
  revert st. induction trace as [|a trace IH]; intros st Hnone; [done|].
  unfold appends in Hnone. simpl in Hnone.
  destruct a; try discriminate; simpl; rewrite IH; auto.
Qed.

Lemma ExecuteTasks_state_from (body : ScanUnit -> ScanState -> ScanState * option error)
    (tasks : list ScanUnit) (st : ScanState) (m : WorkerPoolMetrics) :
  (foldl (fun acc task =>
            let '(st', err) := body task acc.1 in
            (st', match err with
                  | None => {| TotalTasks := TotalTasks acc.2;
                               CompletedTasks := CompletedTasks acc.2 + 1;
                               FailedTasks := FailedTasks acc.2 |}
                  | Some _ => {| TotalTasks := TotalTasks acc.2;
                                 CompletedTasks := CompletedTasks acc.2;
                                 FailedTasks := FailedTasks acc.2 + 1 |}
                  end)) (st, m) tasks).1
  = foldl (fun st task => (body task st).1) st tasks.
Proof.
  revert st m. induction tasks as [|task tasks IH]; intros st m; [done|].
  simpl. destruct (body task st) as [st' err] eqn:Hbody. rewrite IH. reflexivity.
Qed.

Lemma ExecuteTasks_state (body : ScanUnit -> ScanState -> ScanState * option error)
    (tasks : list ScanUnit) (st : ScanState) :
  (ExecuteTasks body tasks st).1 = foldl (fun st task => (body task st).1) st tasks.
Proof. apply ExecuteTasks_state_from. Qed.

Section UnitClaims.
Context {strings_pkg : StringsPkg} {aws : AwsEnv}.
Variable cfg : Config.
Variable opts : scanOptions.
Variable accountSessions : gmap string Session.

Abbreviation runOne := (runUnit cfg opts accountSessions).
Abbreviation failed := (fails cfg opts accountSessions).

(** A batch run in order is the run of the units' steps, one unit after
    the other. *)
Lemma batch_state (tasks : list ScanUnit) (st : ScanState) :
  (ExecuteTasks runOne tasks st).1
  = run st (tasks ≫= unitActions cfg opts accountSessions).
Proof.
  rewrite ExecuteTasks_state. revert st.
  induction tasks as [|task tasks IH]; intros st; [done|].
  rewrite bind_cons, run_app. simpl. apply IH.
Qed.

Lemma batch_metrics_from (tasks : list ScanUnit) (st : ScanState) (m : WorkerPoolMetrics) :
  (foldl (fun acc task =>
            let '(st', err) := runOne task acc.1 in
            (st', match err with
                  | None => {| TotalTasks := TotalTasks acc.2;
                               CompletedTasks := CompletedTasks acc.2 + 1;
                               FailedTasks := FailedTasks acc.2 |}
                  | Some _ => {| TotalTasks := TotalTasks acc.2;
                                 CompletedTasks := CompletedTasks acc.2;
                                 FailedTasks := FailedTasks acc.2 + 1 |}
                  end)) (st, m) tasks).2
  = {| TotalTasks := TotalTasks m;
       CompletedTasks := CompletedTasks m
                         + Z.of_nat (length (List.filter (fun u => negb (failed u)) tasks));
       FailedTasks := FailedTasks m + Z.of_nat (length (List.filter failed tasks)) |}.
Proof.
  revert st m. induction tasks as [|task tasks IH]; intros st m.
  - simpl. destruct m. simpl. f_equal; lia.
  - cbn [foldl List.filter fst snd runUnit].
    destruct (failed task) eqn:Hfails; unfold fails in Hfails;
      destruct (unitError cfg opts accountSessions task) as [err|]; try discriminate;
      rewrite IH; cbn [negb length TotalTasks CompletedTasks FailedTasks]; f_equal; lia.
Qed.

Lemma batch_metrics (tasks : list ScanUnit) (st : ScanState) :
  (ExecuteTasks runOne tasks st).2
  = {| TotalTasks := Z.of_nat (length tasks);
       CompletedTasks := Z.of_nat (length (List.filter (fun u => negb (failed u)) tasks));
       FailedTasks := Z.of_nat (length (List.filter failed tasks)) |}.
Proof. unfold ExecuteTasks. rewrite batch_metrics_from. reflexivity. Qed.

(** The steps of a unit whose body fails contain no append. *)
Lemma failed_unit_no_append (u : ScanUnit) :
  failed u = true -> appends (unitActions cfg opts accountSessions u) = [].
Proof.
  unfold fails, unitError. rewrite unitActions_split.
  destruct (unitBody_cases cfg opts accountSessions u)
    as [(err & _ & Hb)|[(rs & err & _ & _ & Hb)|(rs & results & _ & _ & Hb)]];
    rewrite Hb; simpl; done.
Qed.

(** C9. Every result a unit appends to the aggregated structure carries
    the unit's account ID and account name, and its [Details] map holds
    under "region" the label "global" when the unit's scanner is an IAM
    scanner and the unit's region otherwise. It is a retained result of
    the scan, otherwise unchanged: same resource, same tags, same other
    details. *)
Theorem retained_results_annotated (u : ScanUnit) (accountID label : string)
    (appended : ScanResults) (r' : ScanResult)
    (Happend : AAppend accountID label appended ∈ unitActions cfg opts accountSessions u)
    (Hr' : r' ∈ appended) :
  AccountID r' = ID (unitAccount u)
  /\ AccountName r' = Name (unitAccount u)
  /\ (exists details,
        Details r' = Some details
        /\ details !! "region"
           = Some (DString (if isIAMScanner (unitScanner u) then "global"
                            else unitRegion u)))
  /\ (exists regionSession results r,
        GetSessionInRegion (accountSessions !! ID (unitAccount u)) (unitRegion u)
        = Ok regionSession
        /\ Scan (unitScanner u) {| soRegion := unitRegion u; soDaysUnused := daysUnused opts;
                                   soSession := regionSession |} = Ok results
        /\ r ∈ filterResults cfg results
        /\ r' = annotate (unitAccount u) (unitScanner u) (unitRegion u) r
        /\ ResourceID r' = ResourceID r
        /\ ResourceName r' = ResourceName r
        /\ Tags r' = Tags r
        /\ (forall field, field <> "region" ->
              default ∅ (Details r') !! field = default ∅ (Details r) !! field)).
Proof.
  rewrite unitActions_split in Happend.
  apply elem_of_app in Happend as [Happend|Happend];
    [apply elem_of_app in Happend as [Happend|Happend]|];
    [elems_of Happend| |elems_of Happend].
  destruct (unitBody_cases cfg opts accountSessions u)
    as [(err & _ & Hb)|[(rs & err & _ & _ & Hb)|(rs & results & Hs & Hscan & Hb)]];
    rewrite Hb in Happend; simpl in Happend; elems_of Happend.
  unfold retained in Hr'. apply list_elem_of_fmap in Hr' as (r & -> & Hr).
  split; [reflexivity|]. split; [reflexivity|]. split.
  { eexists. split; [reflexivity|]. apply lookup_insert_eq. }
  exists rs, results, r. repeat split; try done.
  intros field Hfield. simpl. rewrite lookup_insert_ne by done.
  by destruct (Details r).
Qed.

(** C7. A unit whose body fails, because the regional session cannot be
    created or because [Scan] returns an error, returns an error and
    contributes nothing: none of its steps writes the aggregated
    structure, which is after the unit what it was before. The batch goes
    on: with the pool running every unit, the aggregated structure after
    the batch is the one the batch without the failed unit gives, the
    failure is counted once, and [runScan] returns nil once the batch has
    been handed over. *)
Theorem failed_unit_contributes_nothing (u : ScanUnit) (st : ScanState)
    (before after : list ScanUnit)
    (Hfail : (exists err,
                GetSessionInRegion (accountSessions !! ID (unitAccount u)) (unitRegion u)
                = Err err)
             \/ (exists regionSession err,
                   GetSessionInRegion (accountSessions !! ID (unitAccount u)) (unitRegion u)
                   = Ok regionSession
                   /\ Scan (unitScanner u)
                        {| soRegion := unitRegion u; soDaysUnused := daysUnused opts;
                           soSession := regionSession |} = Err err)) :
  is_Some (runOne u st).2
  /\ contribution cfg opts accountSessions u = []
  /\ (forall a st', a ∈ unitActions cfg opts accountSessions u ->
                    accountResults (step st' a) = accountResults st')
  /\ accountResults (runOne u st).1 = accountResults st
  /\ accountResults (ExecuteTasks runOne (before ++ u :: after) st).1
     = accountResults (ExecuteTasks runOne (before ++ after) st).1
  /\ FailedTasks (ExecuteTasks runOne (before ++ u :: after) st).2
     = FailedTasks (ExecuteTasks runOne (before ++ after) st).2 + 1
  /\ CompletedTasks (ExecuteTasks runOne (before ++ u :: after) st).2
     = CompletedTasks (ExecuteTasks runOne (before ++ after) st).2
  /\ (forall plan l, prepareScan cfg opts [] = (Continue plan, l) ->
                     returned (runScan cfg opts) = None).
Proof.
  assert (fails cfg opts accountSessions u = true) as Hfails.
  { unfold fails, unitError, unitBody.
    destruct Hfail as [(err & ->)|(rs & err & -> & ->)]; reflexivity. }
  pose proof (failed_unit_no_append u Hfails) as Hnone.
  split.
  { simpl. unfold fails in Hfails.
    destruct (unitError cfg opts accountSessions u); [eauto|discriminate]. }
  split.
  { unfold contribution. destruct Hfail as [(err & ->)|(rs & err & -> & ->)]; reflexivity. }
  split.
  { intros a st' Ha. destruct a; try reflexivity.
    assert (AAppend accountID label filteredResults
            ∈ appends (unitActions cfg opts accountSessions u)) as Hin.
    { unfold appends. apply list_elem_of_In, filter_In. split; [by apply list_elem_of_In|done]. }
    rewrite Hnone in Hin. by apply elem_of_nil in Hin. }
  split; [apply accountResults_run_no_append, Hnone|].
  split.
  { rewrite !batch_state, !bind_app, bind_cons, !run_app.
    apply accountResults_run_eq, accountResults_run_no_append, Hnone. }
  split.
  { rewrite !batch_metrics. simpl. rewrite !List.filter_app, !length_app. simpl.
    rewrite Hfails. simpl. lia. }
  split.
  { rewrite !batch_metrics. simpl. rewrite !List.filter_app, !length_app. simpl.
    rewrite Hfails. simpl. lia. }
  intros plan l Hplan. unfold runScan. rewrite Hplan. reflexivity.
Qed.

End UnitClaims.

(** ** Aggregation under concurrent units *)

Lemma resultsFor_appendResults (ar : gmap string scanResult)
    (accountID' label' : string) (filteredResults : ScanResults) (accountID label : string) :
  is_Some (ar !! accountID') ->
  resultsFor (appendResults accountID' label' filteredResults ar) accountID label
  = resultsFor ar accountID label
    ++ appended accountID label (AAppend accountID' label' filteredResults).
Proof.
  intros [res Hres]. unfold appendResults, resultsFor, appended. rewrite Hres.
  destruct (String.eqb_spec accountID' accountID) as [->|Hid]; simpl.
  - rewrite lookup_insert_eq, Hres. simpl.
    destruct (String.eqb_spec label' label) as [->|Hlabel].
    + rewrite lookup_insert_eq. simpl.
      by destruct (Results res !! label) as [[|r rs]|].
    + rewrite lookup_insert_ne by done. by rewrite app_nil_r.
  - rewrite lookup_insert_ne by done. by rewrite app_nil_r.
Qed.

Lemma appendResults_is_Some (ar : gmap string scanResult)
    (accountID' label' : string) (filteredResults : ScanResults) (accountID : string) :
  is_Some (appendResults accountID' label' filteredResults ar !! accountID)
  <-> is_Some (ar !! accountID).
Proof.
  unfold appendResults. destruct (ar !! accountID') as [res|] eqn:Hres; [|done].
  rewrite lookup_insert. case_decide as Hid; [|done].
  subst. rewrite Hres. split; eauto.
Qed.

Lemma ready_step (st : ScanState) (a b : Action) :
  ready (accountResults st) b -> ready (accountResults (step st a)) b.
Proof.
  destruct b; try done. simpl. intros Hb.
  destruct a; simpl; try done. by apply appendResults_is_Some.
Qed.

Lemma resultsFor_step (st : ScanState) (a : Action) (accountID label : string) :
  ready (accountResults st) a ->
  resultsFor (accountResults (step st a)) accountID label
  = resultsFor (accountResults st) accountID label ++ appended accountID label a.
Proof.
  destruct a; simpl; intros Ha; try (by rewrite app_nil_r).
  by apply resultsFor_appendResults.
Qed.

Lemma resultsFor_run (trace : list Action) (st : ScanState) (accountID label : string) :
  Forall (ready (accountResults st)) trace ->
  resultsFor (accountResults (run st trace)) accountID label
  = resultsFor (accountResults st) accountID label ++ (trace ≫= appended accountID label).
Proof.
  revert st. induction trace as [|a trace IH]; intros st Hready.
  - simpl. by rewrite app_nil_r.
  - apply Forall_cons in Hready as [Ha Hready].
    rewrite bind_cons. simpl. rewrite IH.
    + rewrite resultsFor_step by done. by rewrite app_assoc.
    + eapply Forall_impl; [exact Hready|]. intros b. apply ready_step.
Qed.

(** A schedule is a rearrangement of the units' steps. *)
Lemma interleaving_Permutation (threads : list (list Action)) (trace : list Action) :
  interleaving threads trace -> trace ≡ₚ mjoin threads.
Proof.
  induction 1 as [threads Hdone|threads i a rest trace Hi Hrest IH].
  - by rewrite join_nil_2.
  - pose proof (lookup_lt_Some _ _ _ Hi) as Hlt.
    rewrite insert_take_drop in IH by done.
    rewrite <- (take_drop_middle threads i (a :: rest)) by done.
    rewrite join_app in IH. rewrite join_app. simpl in *.
    rewrite IH. by rewrite Permutation_middle.
Qed.

Lemma join_fmap_bind {A B : Type} (f : A -> list B) (l : list A) :
  mjoin (f <$> l) = l ≫= f.
Proof. induction l as [|x l IH]; csimpl; [done|]. by rewrite IH. Qed.

Lemma bind_bind {A B C : Type} (f : A -> list B) (g : B -> list C) (l : list A) :
  (l ≫= f) ≫= g = l ≫= (fun x => f x ≫= g).
Proof.
  induction l as [|x l IH]; [done|].
  by rewrite !bind_cons, bind_app, IH.
Qed.

Lemma length_bind_sum {A B : Type} (f : A -> list B) (l : list A) :
  length (l ≫= f) = sum_list ((fun x => length (f x)) <$> l).
Proof.
  induction l as [|x l IH]; [done|].
  rewrite bind_cons, length_app, IH. reflexivity.
Qed.

Lemma bind_filter_if {A B : Type} (p : A -> bool) (f : A -> list B) (l : list A) :
  l ≫= (fun x => if p x then f x else []) = List.filter p l ≫= f.
Proof.
  induction l as [|x l IH]; [done|].
  rewrite bind_cons, IH. simpl. destruct (p x); [by rewrite bind_cons|done].
Qed.

Section Aggregation.
Context {strings_pkg : StringsPkg} {aws : AwsEnv}.
Variable cfg : Config.
Variable opts : scanOptions.
Variable accountSessions : gmap string Session.

(** What the steps of one unit add to a pair: the unit's contribution when
    it targets the pair, nothing otherwise. *)
Lemma unit_appended (u : ScanUnit) (accountID label : string) :
  unitActions cfg opts accountSessions u ≫= appended accountID label
  = if targets accountID label u then contribution cfg opts accountSessions u else [].
Proof.
  rewrite unitActions_split. unfold contribution, targets.
  destruct (unitBody_cases cfg opts accountSessions u)
    as [(err & Hs & Hb)|[(rs & err & Hs & Hscan & Hb)|(rs & results & Hs & Hscan & Hb)]];
    rewrite Hb, Hs, ?Hscan; simpl.
  - by destruct (_ && _)%bool.
  - by destruct (_ && _)%bool.
  - destruct (_ && _)%bool; [by rewrite app_nil_r|done].
Qed.

(** Every append of a unit is for the unit's own account. *)
Lemma unit_append_account (u : ScanUnit) (accountID label : string)
    (filteredResults : ScanResults) :
  AAppend accountID label filteredResults ∈ unitActions cfg opts accountSessions u ->
  accountID = ID (unitAccount u) /\ label = Label (unitScanner u).
Proof.
  rewrite unitActions_split. intros Hin.
  apply elem_of_app in Hin as [Hin|Hin]; [apply elem_of_app in Hin as [Hin|Hin]|];
    [elems_of Hin| |elems_of Hin].
  destruct (unitBody_cases cfg opts accountSessions u)
    as [(err & _ & Hb)|[(rs & err & _ & _ & Hb)|(rs & results & _ & _ & Hb)]];
    rewrite Hb in Hin; simpl in Hin; elems_of Hin. done.
Qed.

(** The result list of a pair after any schedule of a batch. *)
Lemma interleaved_results (units : list ScanUnit) (st : ScanState) (trace : list Action)
    (accountID label : string) :
  (forall u, u ∈ units -> is_Some (accountResults st !! ID (unitAccount u))) ->
  interleaving (unitActions cfg opts accountSessions <$> units) trace ->
  resultsFor (accountResults (run st trace)) accountID label
  ≡ₚ resultsFor (accountResults st) accountID label
     ++ (List.filter (targets accountID label) units
         ≫= contribution cfg opts accountSessions).
Proof.
  intros Hready Hsched. apply interleaving_Permutation in Hsched.
  rewrite join_fmap_bind in Hsched.
  rewrite resultsFor_run.
  - apply Permutation_app_head. rewrite Hsched, bind_bind.
    rewrite <- bind_filter_if.
    rewrite (list_bind_ext _ (fun u => if targets accountID label u
                                       then contribution cfg opts accountSessions u
                                       else []) units units); [done| |done].
    intros u. apply unit_appended.
  - apply Forall_forall. intros a Ha. rewrite Hsched in Ha.
    apply list_elem_of_bind in Ha as (u & Ha & Hu).
    destruct a; try done. simpl.
    apply unit_append_account in Ha as [-> _]. by apply Hready.
Qed.

(** C4. Whatever the interleaving of the units' steps, once every unit of
    the batch has completed, the result list of an (account, scanner
    label) pair is what it was before the batch followed by a
    rearrangement of the retained results of exactly the units that target
    the pair: each retained result once per unit that produced it, none
    from any other unit, none from a failed unit. Its length grows by the
    sum of the sizes of those units' retained results. *)
Theorem aggregation_any_interleaving (units : list ScanUnit) (st : ScanState)
    (trace : list Action) (accountID label : string)
    (Hready : forall u, u ∈ units -> is_Some (accountResults st !! ID (unitAccount u)))
    (Hsched : interleaving (unitActions cfg opts accountSessions <$> units) trace) :
  resultsFor (accountResults (run st trace)) accountID label
  ≡ₚ resultsFor (accountResults st) accountID label
     ++ (List.filter (targets accountID label) units
         ≫= contribution cfg opts accountSessions)
  /\ length (resultsFor (accountResults (run st trace)) accountID label)
     = (length (resultsFor (accountResults st) accountID label)
        + sum_list ((fun u => length (contribution cfg opts accountSessions u))
                    <$> List.filter (targets accountID label) units))%nat
  /\ (forall trace', interleaving (unitActions cfg opts accountSessions <$> units) trace' ->
        resultsFor (accountResults (run st trace')) accountID label
        ≡ₚ resultsFor (accountResults (run st trace)) accountID label).
Proof.
  pose proof (interleaved_results units st trace accountID label Hready Hsched) as Hperm.
  split; [exact Hperm|]. split.
  - by rewrite Hperm, length_app, length_bind_sum.
  - intros trace' Hsched'. rewrite Hperm.
    by apply interleaved_results.
Qed.

End Aggregation.

(** ** The batch as [runScan] runs it *)

Lemma interleaving_idle_thread (threads : list (list Action)) (trace : list Action) :
  interleaving threads trace -> interleaving ([] :: threads) trace.
Proof.
  induction 1 as [threads Hdone|threads i a rest trace Hi Hrest IH].
  - apply interleaving_done. by constructor.
  - by apply (interleaving_step _ (S i) a rest).
Qed.

Lemma interleaving_first_thread (t : list Action) (threads : list (list Action))
    (trace : list Action) :
  interleaving ([] :: threads) trace -> interleaving (t :: threads) (t ++ trace).
Proof.
  intros Hrest. induction t as [|a t IH]; [done|].
  by apply (interleaving_step _ 0%nat a t).
Qed.

(** Running the units one after the other is one of the schedules. *)
Lemma interleaving_sequential (threads : list (list Action)) :
  interleaving threads (mjoin threads).
Proof.
  induction threads as [|t threads IH].
  - apply interleaving_done. constructor.
  - apply interleaving_first_thread, interleaving_idle_thread, IH.
Qed.

Lemma initResults_from (accts : list Account) (m : gmap string scanResult) (k : string) :
  (forall res, m !! k = Some res -> Results res = ∅) ->
  (is_Some (foldl (fun m account =>
                     <[ID account := {| srAccountID := ID account;
                                        srAccountName := Name account;
                                        Results := ∅ |}]> m) m accts !! k)
   <-> is_Some (m !! k) \/ k ∈ ID <$> accts)
  /\ (forall res,
        foldl (fun m account =>
                 <[ID account := {| srAccountID := ID account;
                                    srAccountName := Name account;
                                    Results := ∅ |}]> m) m accts !! k = Some res ->
        Results res = ∅).
Proof.
  revert m. induction accts as [|account accts IH]; intros m Hm.
  - simpl. split; [|done]. rewrite elem_of_nil. tauto.
  - simpl. destruct (IH (<[ID account := {| srAccountID := ID account;
                                            srAccountName := Name account;
                                            Results := ∅ |}]> m)) as [Hdom Hres].
    { intros res. rewrite lookup_insert. case_decide; [by intros [= <-]|apply Hm]. }
    split; [|done]. rewrite Hdom, elem_of_cons, lookup_insert.
    case_decide as Hk.
    + subst k. split; eauto.
    + split; [tauto|]. intros [?|[?|?]]; [tauto|congruence|tauto].
Qed.

(** Every account of the batch has its entry, with no results yet. *)
Lemma initResults_ready (accts : list Account) (account : Account) :
  account ∈ accts -> is_Some (initResults accts !! ID account).
Proof.
  intros Hin. apply (initResults_from accts ∅ (ID account)).
  - intros res. by rewrite lookup_empty.
  - right. by apply list_elem_of_fmap_2.
Qed.

Lemma initResults_empty (accts : list Account) (accountID label : string) :
  resultsFor (initResults accts) accountID label = [].
Proof.
  unfold resultsFor. destruct (initResults accts !! accountID) as [res|] eqn:Hres; [|done].
  apply (initResults_from accts ∅ accountID) in Hres.
  - by rewrite Hres, lookup_empty.
  - intros res'. by rewrite lookup_empty.
Qed.

Section Batch.
Context {strings_pkg : StringsPkg} {aws : AwsEnv}.
Variable cfg : Config.
Variable opts : scanOptions.

(** From the state [runScan] builds, under any schedule of the units it
    creates, a pair ends with the retained results of its units. *)
Lemma batch_results (accountSessions : gmap string Session) (scnrs : list Scanner)
    (rgns : list string) (accts : list Account) (st : ScanState) (trace : list Action)
    (accountID label : string) :
  accountResults st = initResults accts ->
  interleaving (unitActions cfg opts accountSessions <$> expandTasks scnrs rgns accts) trace ->
  resultsFor (accountResults (run st trace)) accountID label
  ≡ₚ List.filter (targets accountID label) (expandTasks scnrs rgns accts)
     ≫= contribution cfg opts accountSessions.
Proof.
  intros Hinit Hsched.
  rewrite (interleaved_results cfg opts accountSessions (expandTasks scnrs rgns accts)
             st trace accountID label);
    [by rewrite Hinit, initResults_empty| |done].
  intros u Hu. apply elem_of_expandTasks in Hu as (_ & _ & Hu).
  rewrite Hinit. by apply initResults_ready.
Qed.

Lemma bind_Continue {A B : Type} (m : Run A) (k : A -> Run B) (l l' : list LogEvent)
    (b : B) :
  bind m k l = (Continue b, l') ->
  exists a l'', m l = (Continue a, l'') /\ k a l'' = (Continue b, l').
Proof.
  unfold bind. destruct (m l) as [[a|e] l''] eqn:Hm; [eauto|discriminate].
Qed.

(** The plan [runScan] hands to the pool. *)
Lemma prepareScan_plan (l l' : list LogEvent) (plan : Plan) :
  prepareScan cfg opts l = (Continue plan, l') ->
  planTasks plan = expandTasks (planScanners plan) (planRegions plan) (planAccounts plan)
  /\ planResults plan = initResults (planAccounts plan).
Proof.
  unfold prepareScan. intros Hplan.
  apply bind_Continue in Hplan as (_ & l1 & _ & Hplan).
  apply bind_Continue in Hplan as (scnrs & l2 & _ & Hplan).
  apply bind_Continue in Hplan as (resolved & l3 & _ & Hplan).
  apply bind_Continue in Hplan as (rgns & l4 & _ & Hplan).
  destruct (InitSharedPool (MaxWorkers cfg)); [discriminate|].
  unfold bind, emit, ret in Hplan. by injection Hplan as <- _.
Qed.

(** With the pool running every unit, [runScan] ends with, for every
    pair, the retained results of the units of the pair. *)
Lemma runScan_results (plan : Plan) (l : list LogEvent) (accountID label : string) :
  prepareScan cfg opts [] = (Continue plan, l) ->
  returned (runScan cfg opts) = None
  /\ resultsFor (accountResults (final (runScan cfg opts))) accountID label
     ≡ₚ List.filter (targets accountID label) (created (runScan cfg opts))
        ≫= contribution cfg opts (planSessions plan)
  /\ progress (final (runScan cfg opts)) = ∅.
Proof.
  intros Hplan. pose proof (prepareScan_plan _ _ _ Hplan) as [Htasks Hresults].
  unfold runScan. rewrite Hplan. simpl. split; [done|].
  rewrite batch_state, Htasks. split.
  - apply batch_results; [done|].
    rewrite <- join_fmap_bind. apply interleaving_sequential.
  - generalize (expandTasks (planScanners plan) (planRegions plan) (planAccounts plan)).
    intros tasks.
    assert (forall st, progress st = ∅ ->
              progress (run st (tasks ≫= unitActions cfg opts (planSessions plan))) = ∅)
      as Hidle; [|by apply Hidle].
    induction tasks as [|u tasks IH]; intros st Hst; [done|].
    rewrite bind_cons, run_app. apply IH.
    rewrite unitActions_split, !run_app. simpl.
    unfold Progress.completeScanner.
    destruct (unitBody_cases cfg opts (planSessions plan) u)
      as [(err & _ & Hb)|[(rs & err & _ & _ & Hb)|(rs & results & _ & _ & Hb)]];
      rewrite Hb; simpl; rewrite Hst;
      unfold Progress.updateResultCount, Progress.startScanner;
      rewrite ?lookup_insert_eq, ?insert_insert_eq, delete_insert_eq; apply delete_empty.
Qed.

End Batch.

(** ** Account resolution *)

Lemma bind_Return {A B : Type} (m : Run A) (k : A -> Run B) (l l' : list LogEvent)
    (e : option error) :
  bind m k l = (Return e, l') ->
  m l = (Return e, l')
  \/ exists a l'', m l = (Continue a, l'') /\ k a l'' = (Return e, l').
Proof.
  unfold bind. destruct (m l) as [[a|e'] l''] eqn:Hm.
  - intros Hk. right. eauto.
  - intros [= <- <-]. by left.
Qed.

Lemma soft_ret {A : Type} (a : A) : soft (ret a).
Proof. intros l err l'. unfold ret. congruence. Qed.

Lemma soft_emit (e : LogEvent) : soft (emit e).
Proof. intros l err l'. unfold emit. congruence. Qed.

Lemma soft_exit_nil {A : Type} : soft (exit (A := A) None).
Proof. intros l err l'. unfold exit. congruence. Qed.

Lemma soft_bind {A B : Type} (m : Run A) (k : A -> Run B) :
  soft m -> (forall a, soft (k a)) -> soft (bind m k).
Proof.
  intros Hm Hk l err l' Hbind.
  apply bind_Return in Hbind as [Hret|(a & l'' & _ & Hret)].
  - by apply Hm in Hret.
  - by apply Hk in Hret.
Qed.

Create HintDb soft.
#[local] Hint Resolve soft_ret soft_emit soft_exit_nil : soft.
#[local] Hint Extern 2 (soft (bind _ _)) => apply soft_bind; [|intros ?] : soft.

Section Resolution.
Context {strings_pkg : StringsPkg} {aws : AwsEnv}.
Variable cfg : Config.
Variable opts : scanOptions.

Lemma costEstimator_soft : soft (costEstimator cfg opts).
Proof.
  unfold costEstimator. apply soft_bind.
  - destruct (negb _); repeat case_match; auto 10 with soft.
  - intros s. case_match; auto with soft.
Qed.

Lemma createBaseSession_soft : soft (createBaseSession cfg opts).
Proof. unfold createBaseSession. repeat case_match; auto 10 with soft. Qed.

Lemma listAccounts_soft (baseSession : Session) : soft (listAccounts opts baseSession).
Proof. unfold listAccounts. repeat case_match; auto 10 with soft. Qed.

Lemma createSessions_soft (baseSession : Session) (accts : list Account)
    (accountSessions : gmap string Session) (authenticated : list Account) :
  soft (createSessions opts baseSession accts accountSessions authenticated).
Proof.
  revert accountSessions authenticated.
  induction accts as [|account accts IH]; intros accountSessions authenticated; simpl.
  - auto with soft.
  - repeat case_match; auto 10 with soft.
Qed.

Lemma elem_of_filteredAccounts (requested : list string) (accts : list Account)
    (account : Account) :
  account ∈ filteredAccounts requested accts
  <-> account ∈ accts /\ ID account ∈ TrimSpace <$> requested.
Proof.
  unfold filteredAccounts.
  rewrite list_elem_of_In, filter_In, <- list_elem_of_In, bool_decide_eq_true.
  by rewrite elem_of_list_to_set.
Qed.

Lemma elem_of_invalidAccounts (requested : list string) (accts : list Account)
    (accountID : string) :
  accountID ∈ invalidAccounts requested accts
  <-> accountID ∈ TrimSpace <$> requested /\ accountID ∉ ID <$> accts.
Proof.
  unfold invalidAccounts.
  rewrite list_elem_of_In, filter_In, <- list_elem_of_In, negb_true_iff,
    bool_decide_eq_false.
  by rewrite elem_of_list_to_set.
Qed.

(** What the filter block returns and logs. *)
Lemma filterAccounts_explicit (accts : list Account) (l : list LogEvent) :
  accounts opts <> "" ->
  filterAccounts opts accts l
  = (match filteredAccounts (Split (accounts opts) ",") accts with
     | [] => Return (Some "none of the specified accounts exist in the organization")
     | kept => Continue kept
     end,
     match invalidAccounts (Split (accounts opts) ",") accts with
     | [] => l
     | invalid =>
         l ++ [LogWarn "Some requested accounts do not exist in the organization" invalid]
     end).
Proof.
  intros Hexplicit. unfold filterAccounts.
  destruct (String.eqb_spec (accounts opts) "") as [|_]; [done|]. simpl.
  unfold bind, when, emit, ret, exit.
  destruct (invalidAccounts _ _) as [|i invalid]; simpl;
    destruct (filteredAccounts _ _) as [|a kept]; simpl; reflexivity.
Qed.

Lemma filterAccounts_all (accts : list Account) (l : list LogEvent) :
  accounts opts = "" -> filterAccounts opts accts l = (Continue accts, l).
Proof. intros Hall. unfold filterAccounts. by rewrite Hall. Qed.

(** The only error account resolution returns is the one of the filter
    block, for an explicit list none of whose accounts is listed. *)
Lemma resolveAccounts_hard_stop (l0 l1 : list LogEvent) (err : error) :
  resolveAccounts cfg opts l0 = (Return (Some err), l1) ->
  accounts opts <> ""
  /\ err = "none of the specified accounts exist in the organization"
  /\ exists baseSession l2 l3 listed,
       listAccounts opts baseSession l2 = (Continue listed, l3)
       /\ filteredAccounts (Split (accounts opts) ",") listed = [].
Proof.
  unfold resolveAccounts. intros Hret.
  apply bind_Return in Hret as [Hret|(_ & la & _ & Hret)];
    [by apply costEstimator_soft in Hret|].
  apply bind_Return in Hret as [Hret|(baseSession & lb & _ & Hret)];
    [by apply createBaseSession_soft in Hret|].
  apply bind_Return in Hret as [Hret|(listed & lc & Hlisted & Hret)];
    [by apply listAccounts_soft in Hret|].
  apply bind_Return in Hret as [Hret|(kept & ld & _ & Hret)].
  - destruct (String.eqb_spec (accounts opts) "") as [Hall|Hexplicit].
    + by rewrite filterAccounts_all in Hret.
    + rewrite filterAccounts_explicit in Hret by done.
      split; [done|].
      destruct (filteredAccounts _ listed) as [|a kept] eqn:Hkept; [|discriminate].
      injection Hret as <- _. split; [done|]. by exists baseSession, lb, lc, listed.
  - apply bind_Return in Hret as [Hret|(resolved & le & _ & Hret)];
      [by apply createSessions_soft in Hret|].
    destruct (_ =? 0); [|by apply soft_ret in Hret].
    unfold bind, emit, exit in Hret. discriminate.
Qed.

(** C5. With an explicit account list, every requested ID, trimmed, that
    the account listing does not hold is put on the invalid list, which is
    logged as one warning when it is not empty, and is not among the
    accounts kept; the accounts kept are the listed accounts that were
    requested. When none is kept, the filter block returns the error
    "none of the specified accounts exist in the organization", [runScan]
    returns it, and no unit has been created; no other step of account
    resolution returns an error. *)
Theorem explicit_account_filter (accts : list Account) (l : list LogEvent)
    (Hexplicit : accounts opts <> "") :
  let requested := Split (accounts opts) "," in
  let invalid := invalidAccounts requested accts in
  let kept := filteredAccounts requested accts in
  let fatal := "none of the specified accounts exist in the organization" in
  (forall accountID, accountID ∈ requested -> TrimSpace accountID ∉ ID <$> accts ->
     TrimSpace accountID ∈ invalid /\ TrimSpace accountID ∉ ID <$> kept)
  /\ (forall account,
        account ∈ kept <-> account ∈ accts /\ ID account ∈ TrimSpace <$> requested)
  /\ (invalid <> [] ->
      (filterAccounts opts accts l).2
      = l ++ [LogWarn "Some requested accounts do not exist in the organization" invalid])
  /\ (invalid = [] -> (filterAccounts opts accts l).2 = l)
  /\ (kept = [] -> (filterAccounts opts accts l).1 = Return (Some fatal))
  /\ (kept <> [] -> (filterAccounts opts accts l).1 = Continue kept)
  /\ (forall l0 l1 err,
        resolveAccounts cfg opts l0 = (Return (Some err), l1) ->
        err = fatal
        /\ exists baseSession l2 l3 listed,
             listAccounts opts baseSession l2 = (Continue listed, l3)
             /\ filteredAccounts requested listed = [])
  /\ (forall scnrs baseSession listed l1 l2 l3 l4 l5,
        validateOutput opts [] = (Continue tt, l1) ->
        validateScanners opts l1 = (Continue scnrs, l2) ->
        costEstimator cfg opts l2 = (Continue tt, l3) ->
        createBaseSession cfg opts l3 = (Continue baseSession, l4) ->
        listAccounts opts baseSession l4 = (Continue listed, l5) ->
        filteredAccounts requested listed = [] ->
        returned (runScan cfg opts) = Some fatal
        /\ created (runScan cfg opts) = []
        /\ progress (final (runScan cfg opts)) = ∅
        /\ accountResults (final (runScan cfg opts)) = ∅
        /\ TotalTasks (metrics (runScan cfg opts)) = 0)
  /\ (forall err, returned (runScan cfg opts) = Some err -> created (runScan cfg opts) = []).
Proof.
  intros requested invalid kept fatal. subst requested invalid kept fatal.
  rewrite (filterAccounts_explicit accts l Hexplicit). simpl.
  split.
  { intros accountID Hreq Hmissing. split.
    - apply elem_of_invalidAccounts. split; [by apply list_elem_of_fmap_2|done].
    - intros Hkept. apply list_elem_of_fmap in Hkept as (account & Hid & Hkept).
      apply elem_of_filteredAccounts in Hkept as [Hin _].
      apply Hmissing. rewrite Hid. by apply list_elem_of_fmap_2. }
  split; [intros account; apply elem_of_filteredAccounts|].
  split; [by destruct (invalidAccounts _ accts)|].
  split; [by intros ->|].
  split; [by intros ->|].
  split; [by destruct (filteredAccounts _ accts)|].
  split.
  { intros l0 l1 err Hret. by apply resolveAccounts_hard_stop in Hret as (_ & ? & ?). }
  split.
  { intros scnrs baseSession listed l1 l2 l3 l4 l5 Hout Hscnrs Hcost Hbase Hlisted Hkept.
    unfold runScan, prepareScan, resolveAccounts, bind.
    rewrite Hout, Hscnrs, Hcost, Hbase, Hlisted.
    rewrite (filterAccounts_explicit listed l5 Hexplicit), Hkept. done. }
  intros err. unfold runScan.
  destruct (prepareScan cfg opts []) as [[plan|e] l']; simpl; [discriminate|done].
Qed.

End Resolution.

(** ** The statements at concrete runs *)


(** C3 as stated does not hold: "never" fails when two units of a batch
    have one key. With the scanner list [ebs-volumes,ebs-volumes]
    [runScan] creates the same unit twice; after the first has completed
    its key is absent, and the start of the second puts an entry under
    that key back into the snapshot. *)
Lemma progress_entry_reappears :
  created (runScan (strings_pkg := asciiStrings) (aws := Scenario.cloud)
             Scenario.config Batches.duplicated)
  = [Running.ebsUnit; Running.ebsUnit]
  /\ interleaving (Batches.duplicatedActions <$> [Running.ebsUnit; Running.ebsUnit])
       (Batches.duplicatedActions Running.ebsUnit
        ++ Batches.duplicatedActions Running.ebsUnit)
  /\ last (Batches.duplicatedActions Running.ebsUnit)
     = Some (AComplete "111111111111" "us-west-2" "EBS Volumes")
  /\ progress (run Batches.duplicatedStart (Batches.duplicatedActions Running.ebsUnit))
     !! unitKey Running.ebsUnit = None
  /\ Progress.getRunning
       (progress (run Batches.duplicatedStart
                    (Batches.duplicatedActions Running.ebsUnit
                     ++ take 2 (Batches.duplicatedActions Running.ebsUnit))))
     = [{| pAccountID := "111111111111"; pAccountName := "prod"; pRegion := "us-west-2";
           pScanner := "EBS Volumes"; pResultCount := 0 |}]
  /\ Progress.keyOf {| pAccountID := "111111111111"; pAccountName := "prod";
                       pRegion := "us-west-2"; pScanner := "EBS Volumes";
                       pResultCount := 0 |}
     = unitKey Running.ebsUnit
  /\ ~ (forall later p,
          later `prefix_of` Batches.duplicatedActions Running.ebsUnit ->
          p ∈ Progress.getRunning
                (progress (run (run Batches.duplicatedStart
                                  (Batches.duplicatedActions Running.ebsUnit)) later)) ->
          Progress.keyOf p <> unitKey Running.ebsUnit).
Proof.
  split; [vm_compute; reflexivity|].
  split.
  { rewrite <- (app_nil_r (Batches.duplicatedActions Running.ebsUnit
                            ++ Batches.duplicatedActions Running.ebsUnit)), <- app_assoc.
    apply (interleaving_sequential [Batches.duplicatedActions Running.ebsUnit;
                                    Batches.duplicatedActions Running.ebsUnit]). }
  split; [vm_compute; reflexivity|].
  split; [vm_compute; reflexivity|].
  split; [vm_compute; reflexivity|].
  split; [vm_compute; reflexivity|].
  intros Hnever.
  apply (Hnever (take 2 (Batches.duplicatedActions Running.ebsUnit))
           {| pAccountID := "111111111111"; pAccountName := "prod"; pRegion := "us-west-2";
              pScanner := "EBS Volumes"; pResultCount := 0 |}).
  - exists (drop 2 (Batches.duplicatedActions Running.ebsUnit)). by rewrite take_drop.
  - apply ProgressFacts.elem_of_getRunning.
    exists "111111111111:us-west-2:EBS Volumes". vm_compute. reflexivity.
  - vm_compute. reflexivity.
Qed.

Lemma overlapped_schedule :
  interleaving (Running.actionsOf <$> [Running.ebsUnit; Batches.ebsEast]) Batches.overlapped.
Proof.
  vm_compute.
  repeat (first [ eapply (interleaving_step _ 0%nat); [reflexivity|]
                | eapply (interleaving_step _ 1%nat); [reflexivity|] ]; simpl).
  apply interleaving_done. repeat constructor.
Defined.

Lemma batch_ready (u : ScanUnit) :
  u ∈ [Running.ebsUnit; Batches.ebsEast] ->
  is_Some (accountResults Running.idle !! ID (unitAccount u)).
Proof. intros Hu. elems_of Hu; vm_compute; eauto. Defined.

Lemma aggregation_any_interleaving_witness :
  (forall u, u ∈ [Running.ebsUnit; Batches.ebsEast] ->
             is_Some (accountResults Running.idle !! ID (unitAccount u)))
  /\ interleaving (unitActions (strings_pkg := asciiStrings) (aws := Scenario.cloud)
                     Scenario.config Scenario.options Scenario.sessions
                   <$> [Running.ebsUnit; Batches.ebsEast]) Batches.overlapped
  /\ length (resultsFor (accountResults (run Running.idle Batches.overlapped))
               "111111111111" "EBS Volumes")
     = (length (resultsFor (accountResults Running.idle) "111111111111" "EBS Volumes")
        + sum_list ((fun u => length (contribution (strings_pkg := asciiStrings)
                                        (aws := Scenario.cloud) Scenario.config
                                        Scenario.options Scenario.sessions u))
                    <$> List.filter (targets "111111111111" "EBS Volumes")
                          [Running.ebsUnit; Batches.ebsEast]))%nat.
Proof.
  split; [exact batch_ready|]. split; [exact overlapped_schedule|].
  apply (aggregation_any_interleaving (strings_pkg := asciiStrings) (aws := Scenario.cloud)
           Scenario.config Scenario.options Scenario.sessions
           [Running.ebsUnit; Batches.ebsEast] Running.idle Batches.overlapped
           "111111111111" "EBS Volumes" batch_ready overlapped_schedule).
Defined.

(** The overlapped run leaves two results for the pair, one per unit. *)
Example overlapped_results :
  (fun r => (ResourceID r, AccountID r, default ∅ (Details r) !! "region"))
  <$> resultsFor (accountResults (run Running.idle Batches.overlapped))
        "111111111111" "EBS Volumes"
  = [("vol-456", "111111111111", Some (DString "us-east-1"));
     ("vol-456", "111111111111", Some (DString "us-west-2"))].
Proof. vm_compute. reflexivity. Qed.

Lemma explicit_account_filter_witness :
  accounts Batches.unknownAccount <> ""
  /\ returned (runScan (strings_pkg := asciiStrings) (aws := Scenario.cloud)
                 Scenario.config Batches.unknownAccount)
     = Some "none of the specified accounts exist in the organization"
  /\ created (runScan (strings_pkg := asciiStrings) (aws := Scenario.cloud)
                Scenario.config Batches.unknownAccount) = [].
Proof.
  assert (accounts Batches.unknownAccount <> "") as Hexplicit by discriminate.
  split; [exact Hexplicit|].
  pose proof (explicit_account_filter (strings_pkg := asciiStrings) (aws := Scenario.cloud)
                Scenario.config Batches.unknownAccount [Scenario.prod; Scenario.dev] []
                Hexplicit) as (_ & _ & _ & _ & _ & _ & _ & Hrun & _).
  destruct (Hrun [Scenario.iamRoles; Scenario.ebsVolumes] (SessionHandle 1)
              [Scenario.prod; Scenario.dev] [] [] []
              [LogInfo "Creating organization session"]
              [LogInfo "Creating organization session"]
              eq_refl eq_refl eq_refl eq_refl eq_refl eq_refl) as (Hret & Hnone & _).
  split; [exact Hret|exact Hnone].
Defined.

Lemma failed_unit_contributes_nothing_witness :
  ((exists err,
      GetSessionInRegion (AwsEnv := Scenario.cloud)
        (Scenario.sessions !! ID (unitAccount Running.sessionFails))
        (unitRegion Running.sessionFails) = Err err)
   \/ (exists regionSession err,
         GetSessionInRegion (AwsEnv := Scenario.cloud)
           (Scenario.sessions !! ID (unitAccount Running.sessionFails))
           (unitRegion Running.sessionFails) = Ok regionSession
         /\ Scan (unitScanner Running.sessionFails)
              {| soRegion := unitRegion Running.sessionFails;
                 soDaysUnused := daysUnused Scenario.options;
                 soSession := regionSession |} = Err err))
  /\ accountResults
       (runUnit (strings_pkg := asciiStrings) (aws := Scenario.cloud)
          Scenario.config Scenario.options Scenario.sessions
          Running.sessionFails Running.busy).1
     = accountResults Running.busy.
Proof.
  assert ((exists err,
             GetSessionInRegion (AwsEnv := Scenario.cloud)
               (Scenario.sessions !! ID (unitAccount Running.sessionFails))
               (unitRegion Running.sessionFails) = Err err)
          \/ (exists regionSession err,
                GetSessionInRegion (AwsEnv := Scenario.cloud)
                  (Scenario.sessions !! ID (unitAccount Running.sessionFails))
                  (unitRegion Running.sessionFails) = Ok regionSession
                /\ Scan (unitScanner Running.sessionFails)
                     {| soRegion := unitRegion Running.sessionFails;
                        soDaysUnused := daysUnused Scenario.options;
                        soSession := regionSession |} = Err err)) as Hfail.
  { left. exists "no such region". reflexivity. }
  split; [exact Hfail|].
  apply (failed_unit_contributes_nothing (strings_pkg := asciiStrings)
           (aws := Scenario.cloud) Scenario.config Scenario.options Scenario.sessions
           Running.sessionFails Running.busy [] [] Hfail).
Defined.

Lemma retained_results_annotated_witness :
  AAppend "111111111111" "EBS Volumes"
    (retained (strings_pkg := asciiStrings) Scenario.config Scenario.ebsVolumes "us-west-2"
       Scenario.prod
       [Scenario.volume "vol-123" "scratch" [("Env", "Test")];
        Scenario.volume "vol-456" "data" []])
  ∈ unitActions (strings_pkg := asciiStrings) (aws := Scenario.cloud)
      Scenario.config Scenario.options Scenario.sessions Running.ebsUnit
  /\ annotate Scenario.prod Scenario.ebsVolumes "us-west-2" (Scenario.volume "vol-456" "data" [])
     ∈ retained (strings_pkg := asciiStrings) Scenario.config Scenario.ebsVolumes "us-west-2"
         Scenario.prod
         [Scenario.volume "vol-123" "scratch" [("Env", "Test")];
          Scenario.volume "vol-456" "data" []]
  /\ AccountID (annotate Scenario.prod Scenario.ebsVolumes "us-west-2"
                  (Scenario.volume "vol-456" "data" []))
     = ID (unitAccount Running.ebsUnit).
Proof.
  assert (AAppend "111111111111" "EBS Volumes"
            (retained (strings_pkg := asciiStrings) Scenario.config Scenario.ebsVolumes
               "us-west-2" Scenario.prod
               [Scenario.volume "vol-123" "scratch" [("Env", "Test")];
                Scenario.volume "vol-456" "data" []])
          ∈ unitActions (strings_pkg := asciiStrings) (aws := Scenario.cloud)
              Scenario.config Scenario.options Scenario.sessions Running.ebsUnit) as Happend.
  { apply (list_elem_of_lookup_2 _ 3%nat). reflexivity. }
  assert (annotate Scenario.prod Scenario.ebsVolumes "us-west-2"
            (Scenario.volume "vol-456" "data" [])
          ∈ retained (strings_pkg := asciiStrings) Scenario.config Scenario.ebsVolumes
              "us-west-2" Scenario.prod
              [Scenario.volume "vol-123" "scratch" [("Env", "Test")];
               Scenario.volume "vol-456" "data" []]) as Hin.
  { apply (list_elem_of_lookup_2 _ 0%nat). reflexivity. }
  split; [exact Happend|]. split; [exact Hin|].
  apply (retained_results_annotated (strings_pkg := asciiStrings) (aws := Scenario.cloud)
           Scenario.config Scenario.options Scenario.sessions Running.ebsUnit
           _ _ _ _ Happend Hin).
Defined.

(** * Further properties of the orchestrator *)

(** ** Task expansion: cross product and uniqueness *)

(** X1. The units created are exactly the combinations of a scanner of the
    list, a region of that scanner's effective regions and an account of
    the list. *)
Theorem expansion_cross_product (scnrs : list Scanner) (rgns : list string)
    (accts : list Account) (scanner : Scanner) (region : string) (account : Account) :
  {| unitScanner := scanner; unitRegion := region; unitAccount := account |}
  ∈ expandTasks scnrs rgns accts
  <-> scanner ∈ scnrs
      /\ (if isIAMScanner scanner then region = "us-east-1" else region ∈ rgns)
      /\ account ∈ accts.
Proof.
  rewrite elem_of_expandTasks. simpl. unfold scanRegionsFor.
  destruct (isIAMScanner scanner); [|done].
  by rewrite list_elem_of_singleton.
Qed.

Lemma NoDup_fmap_inj_on {A B : Type} (f : A -> B) (l : list A) (x y : A) :
  NoDup (f <$> l) -> x ∈ l -> y ∈ l -> f x = f y -> x = y.
Proof.
  induction l as [|a l IH]; [by intros _ ?%elem_of_nil|].
  rewrite fmap_cons, NoDup_cons, !elem_of_cons.
  intros [Hfresh Hnodup] [->|Hx] [->|Hy] Hf; [done| | |by apply IH].
  - exfalso. apply Hfresh. rewrite Hf. by apply list_elem_of_fmap_2.
  - exfalso. apply Hfresh. rewrite <- Hf. by apply list_elem_of_fmap_2.
Qed.

Lemma unitTuple_of_region (scanner : Scanner) (region : string) (accts : list Account) :
  unitTuple <$> List.map (fun account =>
                  {| unitScanner := scanner; unitRegion := region; unitAccount := account |})
                  accts
  = (fun accountID => (Label scanner, region, accountID)) <$> (ID <$> accts).
Proof.
  induction accts as [|account accts IH]; [done|].
  cbn [List.map]. by rewrite !fmap_cons, IH.
Qed.

Lemma unitTuple_of_scanner_NoDup (scanner : Scanner) (rgns : list string)
    (accts : list Account) :
  NoDup rgns -> NoDup (ID <$> accts) ->
  NoDup (unitTuple <$> flat_map (fun region =>
           List.map (fun account =>
             {| unitScanner := scanner; unitRegion := region; unitAccount := account |})
             accts) rgns).
Proof.
  intros Hrgns Haccts. induction Hrgns as [|region rgns Hfresh Hrgns IH]; cbn [flat_map]; cbv beta.
  - constructor.
  - rewrite fmap_app. apply NoDup_app. split; [|split; [|done]].
    + rewrite unitTuple_of_region. apply NoDup_fmap_2; [|done].
      intros a b [= ->]. done.
    + intros t Ht Hin. rewrite unitTuple_of_region in Ht.
      apply list_elem_of_fmap in Ht as (accountID & -> & _).
      apply list_elem_of_fmap in Hin as (u & Hu & Hin).
      apply list_elem_of_In, in_flat_map in Hin as (region' & Hregion' & Hin).
      apply in_map_iff in Hin as (account & <- & _).
      unfold unitTuple in Hu. simpl in Hu. injection Hu as Hregion _.
      subst region'. by apply Hfresh, list_elem_of_In.
Qed.

Lemma scanRegionsFor_NoDup (rgns : list string) (scanner : Scanner) :
  NoDup rgns -> NoDup (scanRegionsFor rgns scanner).
Proof.
  intros Hrgns. unfold scanRegionsFor.
  destruct (isIAMScanner scanner); [apply NoDup_singleton|done].
Qed.

(** X2. When the scanners have pairwise different labels, the requested
    regions are pairwise different and so are the account IDs, no two
    units of the batch have the same (label, region, account ID), nor the
    same (account ID, region label, scanner label) in the progress
    tracker. *)
Theorem expansion_units_distinct (scnrs : list Scanner) (rgns : list string)
    (accts : list Account)
    (Hscnrs : NoDup (Label <$> scnrs)) (Hrgns : NoDup rgns)
    (Haccts : NoDup (ID <$> accts)) :
  NoDup (unitTuple <$> expandTasks scnrs rgns accts)
  /\ NoDup (progressTuple <$> expandTasks scnrs rgns accts).
Proof.
  assert (NoDup (unitTuple <$> expandTasks scnrs rgns accts)) as Hunits;
    [|split; [exact Hunits|]].
  2:{ apply NoDup_fmap_1 in Hunits as Hnodup.
      apply NoDup_fmap_2_strong; [|done].
      intros u1 u2 Hu1 Hu2 Hsame.
      apply (NoDup_fmap_inj_on unitTuple (expandTasks scnrs rgns accts)); try done.
      unfold progressTuple, unitTuple in *. injection Hsame as Hid Hregion Hlabel.
      apply elem_of_expandTasks in Hu1 as (_ & Hr1 & _).
      apply elem_of_expandTasks in Hu2 as (_ & Hr2 & _).
      unfold scanRegionsFor, logRegionOf, isIAMScanner in *. rewrite Hlabel in *.
      destruct (_ || _)%bool.
      - apply list_elem_of_singleton in Hr1, Hr2. congruence.
      - congruence. }
  induction scnrs as [|scanner scnrs IH].
  - constructor.
  - rewrite expandTasks_cons, fmap_app. simpl in Hscnrs.
    apply NoDup_cons in Hscnrs as [Hfresh Hscnrs].
    apply NoDup_app. split; [|split; [|by apply IH]].
    + apply unitTuple_of_scanner_NoDup; [by apply scanRegionsFor_NoDup|done].
    + intros t Ht Hin.
      apply list_elem_of_fmap in Ht as (u & -> & Hu).
      apply list_elem_of_In, in_flat_map in Hu as (region & _ & Hu).
      apply in_map_iff in Hu as (account & <- & _).
      apply list_elem_of_fmap in Hin as (u' & Hu' & Hin).
      apply elem_of_expandTasks in Hin as (Hscanner & _ & _).
      unfold unitTuple in Hu'. simpl in Hu'. injection Hu' as Hlabel _ _.
      apply Hfresh. rewrite Hlabel. by apply list_elem_of_fmap_2.
Qed.

Lemma expansion_units_distinct_witness :
  NoDup (Label <$> [Scenario.iamRoles; Scenario.ebsVolumes])
  /\ NoDup ["us-east-1"; "us-west-2"]
  /\ NoDup (ID <$> [Scenario.prod; Scenario.dev])
  /\ NoDup (progressTuple <$> expandTasks [Scenario.iamRoles; Scenario.ebsVolumes]
                                ["us-east-1"; "us-west-2"] [Scenario.prod; Scenario.dev]).
Proof.
  assert (NoDup (Label <$> [Scenario.iamRoles; Scenario.ebsVolumes])) as Hscnrs
    by (apply (bool_decide_unpack _); vm_compute; reflexivity).
  assert (NoDup ["us-east-1"; "us-west-2"]) as Hrgns
    by (apply (bool_decide_unpack _); vm_compute; reflexivity).
  assert (NoDup (ID <$> [Scenario.prod; Scenario.dev])) as Haccts
    by (apply (bool_decide_unpack _); vm_compute; reflexivity).
  split; [exact Hscnrs|]. split; [exact Hrgns|]. split; [exact Haccts|].
  exact (proj2 (expansion_units_distinct _ _ _ Hscnrs Hrgns Haccts)).
Defined.

(** ** Progress tracker: round trips, snapshot, invariant *)

(** X3. Starting a unit stores a record with count zero under its key,
    also over an older entry; an update then sets the count; and when the
    key was free, completing the unit, with or without an update in
    between, gives back the map as it was. *)
Theorem start_update_complete (s : gmap string scannerProgress)
    (accountID accountName region scanner : string) (count : Z)
    (Hfree : s !! Progress.key accountID region scanner = None) :
  let k := Progress.key accountID region scanner in
  let started := Progress.startScanner accountID accountName region scanner s in
  started !! k = Some {| pAccountID := accountID; pAccountName := accountName;
                         pRegion := region; pScanner := scanner; pResultCount := 0 |}
  /\ Progress.updateResultCount accountID region scanner count started !! k
     = Some {| pAccountID := accountID; pAccountName := accountName;
               pRegion := region; pScanner := scanner; pResultCount := count |}
  /\ Progress.completeScanner accountID region scanner started = s
  /\ Progress.completeScanner accountID region scanner
       (Progress.updateResultCount accountID region scanner count started) = s
  /\ Progress.startScanner accountID accountName region scanner
       (Progress.updateResultCount accountID region scanner count started) = started.
Proof.
  intros k started. subst k started.
  assert (Progress.startScanner accountID accountName region scanner s
          !! Progress.key accountID region scanner
          = Some {| pAccountID := accountID; pAccountName := accountName;
                    pRegion := region; pScanner := scanner; pResultCount := 0 |})
    as Hstarted by apply lookup_insert_eq.
  assert (Progress.updateResultCount accountID region scanner count
            (Progress.startScanner accountID accountName region scanner s)
          = <[Progress.key accountID region scanner :=
                {| pAccountID := accountID; pAccountName := accountName;
                   pRegion := region; pScanner := scanner; pResultCount := count |}]> s)
    as Hupdated.
  { unfold Progress.updateResultCount. rewrite Hstarted. simpl.
    unfold Progress.startScanner. apply insert_insert_eq. }
  split; [exact Hstarted|]. rewrite Hupdated.
  unfold Progress.completeScanner, Progress.startScanner.
  split; [apply lookup_insert_eq|].
  split; [rewrite delete_insert_eq; by apply delete_id|].
  split; [rewrite delete_insert_eq; by apply delete_id|].
  by rewrite insert_insert_eq.
Qed.

Lemma start_update_complete_witness :
  (∅ : gmap string scannerProgress) !! Progress.key "111111111111" "us-west-2" "EBS Volumes"
  = None
  /\ Progress.completeScanner "111111111111" "us-west-2" "EBS Volumes"
       (Progress.updateResultCount "111111111111" "us-west-2" "EBS Volumes" 7
          (Progress.startScanner "111111111111" "prod" "us-west-2" "EBS Volumes" ∅))
     = ∅.
Proof.
  split; [apply lookup_empty|].
  apply (start_update_complete ∅ "111111111111" "prod" "us-west-2" "EBS Volumes" 7
           (lookup_empty _)).
Defined.

(** X4. The snapshot has one record per key of the map: its length is the
    size of the map, a record is in it exactly when it is stored under
    some key, and starting a unit whose key is free makes it one longer. *)
Theorem snapshot_size (s : gmap string scannerProgress)
    (accountID accountName region scanner : string) :
  length (Progress.getRunning s) = size s
  /\ (forall p, p ∈ Progress.getRunning s <-> exists k, s !! k = Some p)
  /\ (Progress.getRunning s = [] <-> s = ∅)
  /\ length (Progress.getRunning
               (Progress.startScanner accountID accountName region scanner s))
     = match s !! Progress.key accountID region scanner with
       | Some _ => length (Progress.getRunning s)
       | None => S (length (Progress.getRunning s))
       end.
Proof.
  assert (forall m : gmap string scannerProgress, length (Progress.getRunning m) = size m)
    as Hlen.
  { intros m. unfold Progress.getRunning. by rewrite length_fmap, length_map_to_list. }
  split; [apply Hlen|]. split; [apply ProgressFacts.elem_of_getRunning|]. split.
  - unfold Progress.getRunning. rewrite <- map_to_list_empty_iff. split.
    + apply fmap_nil_inv.
    + by intros ->.
  - rewrite !Hlen. unfold Progress.startScanner.
    destruct (s !! Progress.key accountID region scanner) as [old|] eqn:Hold.
    + rewrite <- (insert_delete_id s _ _ Hold) at 2. rewrite <- insert_delete_eq.
      by rewrite !map_size_insert_None by apply lookup_delete_eq.
    + by apply map_size_insert_None.
Qed.

(** X5. From an empty progress map, after any sequence of steps of any
    units, every record of the map sits under the key its own account ID,
    region and scanner spell. *)
Theorem progress_always_consistent (ar : gmap string scanResult) (l : list LogEvent)
    (trace : list Action) :
  Progress.consistent
    (progress (run {| progress := ∅; accountResults := ar; logged := l |} trace))
  /\ forall k p,
       progress (run {| progress := ∅; accountResults := ar; logged := l |} trace) !! k
       = Some p ->
       k = Progress.key (pAccountID p) (pRegion p) (pScanner p).
Proof.
  assert (Progress.consistent
            (progress (run {| progress := ∅; accountResults := ar; logged := l |} trace)))
    as Hcons by apply run_consistent, ProgressFacts.consistent_empty.
  split; [exact Hcons|]. intros k p Hk. symmetry. apply (Hcons k p Hk).
Qed.

(** ** Progress tracker under concurrent units *)

Lemma starts_inv (k : string) (a : Action) :
  starts k a = true ->
  exists accountID accountName region scanner,
    a = AStart accountID accountName region scanner
    /\ Progress.key accountID region scanner = k.
Proof.
  destruct a; simpl; try discriminate.
  intros Hk. apply String.eqb_eq in Hk. eauto 6.
Qed.

(** An entry present after a step was started by it, or was there before
    and the step is not its complete. *)
Lemma step_present (st : ScanState) (a : Action) (k : string) :
  is_Some (progress (step st a) !! k) ->
  starts k a = true \/ (is_Some (progress st !! k) /\ completes k a = false).
Proof.
  destruct a; cbn [step progress starts completes]; auto.
  - unfold Progress.startScanner. rewrite lookup_insert. case_decide as Hk.
    + intros _. left. by apply String.eqb_eq.
    + auto.
  - unfold Progress.updateResultCount.
    destruct (progress st !! Progress.key accountID region scanner) as [prog|] eqn:Hprog;
      [|auto].
    rewrite lookup_insert. case_decide as Hk; [|auto].
    intros _. right. split; [|done]. subst k. by rewrite Hprog.
  - unfold Progress.completeScanner. rewrite lookup_delete. case_decide as Hk.
    + by intros [? ?].
    + intros Hold. right. split; [done|]. by apply String.eqb_neq.
Qed.

Lemma releasing_tail (a : Action) (rest : list Action) :
  releasing (a :: rest) = true -> releasing rest = true.
Proof. simpl. intros Hrel. by apply andb_true_iff in Hrel as [_ ?]. Qed.

Lemma releasing_start (a : Action) (rest : list Action) (k : string) :
  releasing (a :: rest) = true -> starts k a = true ->
  exists a', a' ∈ rest /\ completes k a' = true.
Proof.
  intros Hrel Hstart. apply starts_inv in Hstart as (id & name & r & sc & -> & <-).
  simpl in Hrel. apply andb_true_iff in Hrel as [Hrel _].
  apply existsb_exists in Hrel as (a' & Hin & Hc). exists a'.
  split; [by apply list_elem_of_In|done].
Qed.

(** Whatever the schedule, when every thread pairs its starts with later
    completes, the map is empty once all threads are done. *)
Lemma interleaving_releases (threads : list (list Action)) (trace : list Action) :
  interleaving threads trace ->
  Forall (fun t => releasing t = true) threads ->
  forall st, covered threads (progress st) -> progress (run st trace) = ∅.
Proof.
  induction 1 as [threads Hdone|threads i a rest trace Hi Hrest IH]; intros Hrel st Hcov.
  - simpl. apply map_empty. intros k.
    destruct (progress st !! k) as [p|] eqn:Hk; [|done].
    destruct (Hcov k) as (j & t & a & Hj & Ha & _); [by rewrite Hk|].
    rewrite Forall_lookup in Hdone. rewrite (Hdone j t Hj) in Ha.
    by apply elem_of_nil in Ha.
  - pose proof (lookup_lt_Some _ _ _ Hi) as Hlt.
    assert (releasing (a :: rest) = true) as Hthread.
    { rewrite Forall_lookup in Hrel. by apply (Hrel i). }
    simpl. apply IH.
    + apply Forall_insert; [done|]. by apply releasing_tail in Hthread.
    + intros k Hk. apply step_present in Hk as [Hstart|[Hold Hnot]].
      * destruct (releasing_start a rest k Hthread Hstart) as (a' & Ha' & Hc).
        exists i, rest, a'. split; [by apply list_lookup_insert_eq|done].
      * destruct (Hcov k Hold) as (j & t & a' & Hj & Ha' & Hc).
        destruct (decide (j = i)) as [->|Hne].
        -- rewrite Hi in Hj. injection Hj as <-.
           apply elem_of_cons in Ha' as [->|Ha']; [congruence|].
           exists i, rest, a'. split; [by apply list_lookup_insert_eq|done].
        -- exists j, t, a'. split; [by rewrite list_lookup_insert_ne|done].
Qed.

Section ProgressBatch.
Context {strings_pkg : StringsPkg} {aws : AwsEnv}.
Variable cfg : Config.
Variable opts : scanOptions.
Variable accountSessions : gmap string Session.

Lemma unit_releasing (u : ScanUnit) :
  releasing (unitActions cfg opts accountSessions u) = true.
Proof.
  rewrite unitActions_split.
  destruct (unitBody_cases cfg opts accountSessions u)
    as [(err & _ & Hb)|[(rs & err & _ & _ & Hb)|(rs & results & _ & _ & Hb)]];
    rewrite Hb; simpl; by rewrite String.eqb_refl.
Qed.

(** X6. Starting from an empty progress map, once all units of a batch
    have completed the map is empty again, whatever the interleaving of
    their steps, whichever units failed, and even when several units of
    the batch share one key. *)
Theorem batch_leaves_no_progress_entry (units : list ScanUnit) (trace : list Action)
    (ar : gmap string scanResult) (l : list LogEvent)
    (Hsched : interleaving (unitActions cfg opts accountSessions <$> units) trace) :
  progress (run {| progress := ∅; accountResults := ar; logged := l |} trace) = ∅
  /\ Progress.getRunning
       (progress (run {| progress := ∅; accountResults := ar; logged := l |} trace)) = [].
Proof.
  assert (progress (run {| progress := ∅; accountResults := ar; logged := l |} trace) = ∅)
    as Hempty.
  { apply (interleaving_releases _ _ Hsched).
    - apply Forall_fmap, Forall_forall. intros u _. apply unit_releasing.
    - intros k [p Hk]. simpl in Hk. by rewrite lookup_empty in Hk. }
  split; [exact Hempty|]. by rewrite Hempty.
Qed.

(** X7. The record a unit stores at its start makes the periodic reporter
    print the region label the unit logged: "global" for an IAM scanner,
    the unit's region otherwise. The reporter's own replacement of
    us-east-1 never changes the label of such a record, before or after an
    update of its count. *)
Theorem reporter_prints_log_region (u : ScanUnit) (st : ScanState) (count : Z) :
  let label := logRegionOf (unitScanner u) (unitRegion u) in
  let start := AStart (ID (unitAccount u)) (Name (unitAccount u)) label
                 (Label (unitScanner u)) in
  (exists rest,
     unitActions cfg opts accountSessions u
     = ALog (LogScannerStart (Label (unitScanner u)) (ID (unitAccount u))
               (Name (unitAccount u)) label) :: start :: rest)
  /\ (exists p, progress (step st start) !! unitKey u = Some p
                /\ pRegion p = label
                /\ Progress.displayRegion p = label)
  /\ (exists p,
        progress (step (step st start)
                    (AUpdate (ID (unitAccount u)) label (Label (unitScanner u)) count))
        !! unitKey u = Some p
        /\ pResultCount p = count
        /\ Progress.displayRegion p = label).
Proof.
  intros label start. subst label start.
  assert (forall n,
            Progress.displayRegion
              {| pAccountID := ID (unitAccount u); pAccountName := Name (unitAccount u);
                 pRegion := logRegionOf (unitScanner u) (unitRegion u);
                 pScanner := Label (unitScanner u); pResultCount := n |}
            = logRegionOf (unitScanner u) (unitRegion u)) as Hdisplay.
  { intros n. unfold Progress.displayRegion, logRegionOf, isIAMScanner. simpl.
    destruct (_ || _)%bool; [reflexivity|]. by rewrite andb_false_r. }
  split; [rewrite unitActions_split; simpl; eauto|].
  split.
  - eexists. split; [apply lookup_insert_eq|]. split; [reflexivity|apply Hdisplay].
  - eexists. cbn [step progress]. unfold Progress.updateResultCount, unitKey.
    unfold Progress.startScanner at 1. rewrite lookup_insert_eq.
    split; [apply lookup_insert_eq|]. split; [reflexivity|apply Hdisplay].
Qed.

(** X8. A unit writes the aggregated results exactly once when its body
    returns nil and never when it returns an error. When it writes, the
    account and label of the write are its own, and the count it reports
    to the progress tracker just before is the number of results it
    appends. *)
Theorem unit_appends_once (u : ScanUnit) :
  match unitError cfg opts accountSessions u with
  | None =>
      appends (unitActions cfg opts accountSessions u)
      = [AAppend (ID (unitAccount u)) (Label (unitScanner u))
           (contribution cfg opts accountSessions u)]
      /\ AUpdate (ID (unitAccount u)) (logRegionOf (unitScanner u) (unitRegion u))
           (Label (unitScanner u))
           (Z.of_nat (length (contribution cfg opts accountSessions u)))
         ∈ unitActions cfg opts accountSessions u
  | Some _ =>
      appends (unitActions cfg opts accountSessions u) = []
      /\ contribution cfg opts accountSessions u = []
      /\ forall a, a ∈ unitActions cfg opts accountSessions u ->
                   match a with AUpdate _ _ _ _ => False | _ => True end
  end.
Proof.
  unfold unitError, contribution. rewrite unitActions_split.
  destruct (unitBody_cases cfg opts accountSessions u)
    as [(err & Hs & Hb)|[(rs & err & Hs & Hscan & Hb)|(rs & results & Hs & Hscan & Hb)]];
    rewrite Hb, Hs, ?Hscan; simpl.
  - split; [done|]. split; [done|]. intros a Ha. elems_of Ha; done.
  - split; [done|]. split; [done|]. intros a Ha. elems_of Ha; done.
  - split; [done|]. unfold retained. rewrite length_fmap.
    apply list_elem_of_further, list_elem_of_further, list_elem_of_here.
Qed.

End ProgressBatch.

Lemma batch_leaves_no_progress_entry_witness :
  interleaving (unitActions (strings_pkg := asciiStrings) (aws := Scenario.cloud)
                  Scenario.config Scenario.options Scenario.sessions
                <$> [Running.ebsUnit; Batches.ebsEast]) Batches.overlapped
  /\ progress (run {| progress := ∅; accountResults := initResults [Scenario.prod];
                      logged := [] |} Batches.overlapped) = ∅.
Proof.
  split; [exact overlapped_schedule|].
  apply (batch_leaves_no_progress_entry (strings_pkg := asciiStrings)
           (aws := Scenario.cloud) Scenario.config Scenario.options Scenario.sessions
           [Running.ebsUnit; Batches.ebsEast] Batches.overlapped
           (initResults [Scenario.prod]) [] overlapped_schedule).
Defined.

(** ** Scanners, accounts and sessions *)

Lemma List_filter_sublist {A : Type} (p : A -> bool) (l : list A) :
  List.filter p l `sublist_of` l.
Proof.
  induction l as [|x l IH]; simpl; [constructor|].
  destruct (p x); by constructor.
Qed.

Section Scanners.
Context {strings_pkg : StringsPkg} {aws : AwsEnv}.

Lemma getNamedScanners_spec (names : list string) :
  (getNamedScanners names).2 = List.filter unknownScanner names
  /\ Ok <$> (getNamedScanners names).1
     = GetScanner <$> List.filter (fun name => negb (unknownScanner name)) names.
Proof.
  induction names as [|name names [IHinvalid IHfound]]; [done|].
  cbn [getNamedScanners List.filter].
  destruct (getNamedScanners names) as [found invalid]. cbn [fst snd] in *.
  destruct (GetScanner name) as [scanner|err] eqn:Hname.
  - assert (unknownScanner name = false) as -> by (unfold unknownScanner; by rewrite Hname).
    cbn [fst snd negb]. split; [done|]. by rewrite !fmap_cons, Hname, IHfound.
  - assert (unknownScanner name = true) as -> by (unfold unknownScanner; by rewrite Hname).
    cbn [fst snd negb]. by rewrite IHinvalid.
Qed.

Lemma getAllScanners_spec (names : list string) :
  match getAllScanners names with
  | Ok found => GetScanner <$> names = Ok <$> found
  | Err _ => exists name, name ∈ names /\ unknownScanner name = true
  end.
Proof.
  induction names as [|name names IH]; [done|].
  cbn [getAllScanners]. destruct (GetScanner name) as [scanner|err] eqn:Hname.
  - destruct (getAllScanners names) as [found|err'].
    + by rewrite !fmap_cons, Hname, IH.
    + destruct IH as (name' & Hin & Hunknown). exists name'.
      split; [by apply list_elem_of_further|done].
  - exists name. split; [apply list_elem_of_here|]. unfold unknownScanner. by rewrite Hname.
Qed.

(** X9. For an explicit scanner list [getScanners] never fails: it returns
    the scanners of the names the registry knows and the names it does not
    know, both in the order of the list, and every name is in one of the
    two. Without a list it returns every scanner of the registry and no
    invalid name, or an error when the registry is empty or rejects one of
    its own names. *)
Theorem getScanners_result (scannerList : string) :
  (scannerList <> "" ->
   exists found,
     getScanners scannerList
     = Ok (found, List.filter unknownScanner (Split scannerList ","))
     /\ Ok <$> found
        = GetScanner <$> List.filter (fun name => negb (unknownScanner name))
                           (Split scannerList ",")
     /\ (length found + length (List.filter unknownScanner (Split scannerList ",")))%nat
        = length (Split scannerList ","))
  /\ match getScanners "" with
     | Ok (found, invalid) =>
         invalid = [] /\ ListScanners <> [] /\ GetScanner <$> ListScanners = Ok <$> found
     | Err err =>
         (ListScanners = [] /\ err = "no scanners available in registry")
         \/ exists name, name ∈ ListScanners /\ unknownScanner name = true
     end.
Proof.
  split.
  - intros Hlist. unfold getScanners.
    destruct (String.eqb_spec scannerList "") as [|_]; [done|].
    destruct (getNamedScanners_spec (Split scannerList ",")) as [Hinvalid Hfound].
    destruct (getNamedScanners (Split scannerList ",")) as [found invalid]. simpl in *.
    exists found. subst invalid. split; [done|]. split; [done|].
    apply (f_equal length) in Hfound. rewrite !length_fmap in Hfound. rewrite Hfound.
    clear. induction (Split scannerList ",") as [|name names IH]; [done|].
    simpl. destruct (unknownScanner name); simpl; lia.
  - unfold getScanners. destruct (String.eqb_spec "" "") as [_|]; [|done].
    destruct ListScanners as [|name names] eqn:Hnames; [by left|].
    pose proof (getAllScanners_spec (name :: names)) as Hall.
    destruct (getAllScanners (name :: names)) as [found|err]; [done|by right].
Qed.

End Scanners.

Section Sessions.
Context {strings_pkg : StringsPkg} {aws : AwsEnv}.
Variable cfg : Config.
Variable opts : scanOptions.

(** The loop over the accounts, from any intermediate state. *)
Lemma createSessions_spec (baseSession : Session) (accts : list Account)
    (accountSessions : gmap string Session) (authenticated : list Account)
    (l : list LogEvent) :
  exists sessions l',
    createSessions opts baseSession accts accountSessions authenticated l
    = (Continue (sessions,
                 authenticated ++ List.filter (authenticates opts baseSession) accts), l')
    /\ (forall k, k ∉ ID <$> List.filter (authenticates opts baseSession) accts ->
                  sessions !! k = accountSessions !! k)
    /\ (forall k, k ∈ ID <$> List.filter (authenticates opts baseSession) accts ->
                  is_Some (sessions !! k))
    /\ (chained opts = false ->
        forall k, k ∈ ID <$> accts -> sessions !! k = Some baseSession).
Proof.
  revert accountSessions authenticated l.
  induction accts as [|account accts IH]; intros accountSessions authenticated l.
  - exists accountSessions, l. simpl. rewrite app_nil_r.
    split; [done|]. split; [done|].
    split; [intros k Hk|intros _ k Hk]; by apply elem_of_nil in Hk.
  - cbn [createSessions List.filter].
    assert (forall (session : Session) (sessions : gmap string Session),
              (forall k, k ∉ ID <$> List.filter (authenticates opts baseSession) accts ->
                         sessions !! k = <[ID account := session]> accountSessions !! k) ->
              (forall k, k ∈ ID <$> List.filter (authenticates opts baseSession) accts ->
                         is_Some (sessions !! k)) ->
              (forall k, k ∉ ID <$> (account
                                       :: List.filter (authenticates opts baseSession) accts) ->
                         sessions !! k = accountSessions !! k)
              /\ (forall k, k ∈ ID <$> (account
                                         :: List.filter (authenticates opts baseSession) accts) ->
                            is_Some (sessions !! k))) as Hkeep.
    { intros session sessions Hframe Hsome. split.
      - intros k Hk. rewrite fmap_cons, not_elem_of_cons in Hk.
        destruct Hk as [Hne Hk]. rewrite Hframe by done. by rewrite lookup_insert_ne.
      - intros k Hk.
        destruct (decide (k ∈ ID <$> List.filter (authenticates opts baseSession) accts))
          as [Hin|Hout]; [by apply Hsome|].
        rewrite Hframe by done. rewrite fmap_cons, elem_of_cons in Hk.
        destruct Hk as [->|Hk]; [|done]. rewrite lookup_insert_eq. eauto. }
    destruct (chained opts) eqn:Hchained.
    + destruct (AssumeRoleSession _ _) as [scanSession|err] eqn:Hassume.
      * destruct (GetCallerIdentity scanSession) as [arn|err] eqn:Hidentity.
        -- assert (authenticates opts baseSession account = true) as ->
             by (unfold authenticates; by rewrite Hchained, Hassume, Hidentity).
           unfold bind at 1. unfold emit at 1.
           destruct (IH (<[ID account := scanSession]> accountSessions)
                        (authenticated ++ [account])
                        (l ++ [LogInfo "Successfully assumed scanner role"]))
             as (sessions & l' & Hrun & Hframe & Hsome & _).
           exists sessions, l'. rewrite Hrun, <- app_assoc.
           split; [done|].
           destruct (Hkeep scanSession sessions Hframe Hsome) as [? ?].
           split; [done|]. split; [done|]. by intros [=].
        -- assert (authenticates opts baseSession account = false) as ->
             by (unfold authenticates; by rewrite Hchained, Hassume, Hidentity).
           unfold bind at 1. unfold emit at 1.
           destruct (IH accountSessions authenticated
                        (l ++ [LogWarn "Failed to verify scanner role assumption"
                                 [err; ID account; Name account;
                                  "arn:aws:iam::" +:+ ID account +:+ ":role/"
                                  +:+ scannerRole opts]]))
             as (sessions & l' & Hrun & Hframe & Hsome & _).
           exists sessions, l'. split; [done|]. split; [done|]. split; [done|]. by intros [=].
      * assert (authenticates opts baseSession account = false) as ->
          by (unfold authenticates; by rewrite Hchained, Hassume).
        unfold bind at 1. unfold emit at 1.
        destruct (IH accountSessions authenticated
                     (l ++ [LogWarn "Failed to assume scanner role"
                              [err; ID account; Name account;
                               "arn:aws:iam::" +:+ ID account +:+ ":role/"
                               +:+ scannerRole opts]]))
          as (sessions & l' & Hrun & Hframe & Hsome & _).
        exists sessions, l'. split; [done|]. split; [done|]. split; [done|]. by intros [=].
    + assert (authenticates opts baseSession account = true) as ->
        by (unfold authenticates; by rewrite Hchained).
      destruct (IH (<[ID account := baseSession]> accountSessions)
                   (authenticated ++ [account]) l)
        as (sessions & l' & Hrun & Hframe & Hsome & Hbase).
      exists sessions, l'. rewrite Hrun, <- app_assoc.
      split; [done|].
      destruct (Hkeep baseSession sessions Hframe Hsome) as [? ?].
      split; [done|]. split; [done|].
      intros _ k Hk.
      destruct (decide (k ∈ ID <$> accts)) as [Hin|Hout]; [by apply Hbase|].
      assert (List.filter (authenticates opts baseSession) accts = accts) as Hall.
      { clear -Hchained. induction accts as [|a accts IH]; [done|].
        simpl. unfold authenticates at 1. rewrite Hchained. by rewrite IH. }
      rewrite Hall in Hframe. rewrite Hframe by done.
      rewrite fmap_cons, elem_of_cons in Hk.
      destruct Hk as [->|Hk]; [|done]. by rewrite lookup_insert_eq.
Qed.

(** The loop from the state [runScan] enters it in. *)
Lemma createSessions_fresh (baseSession : Session) (accts : list Account)
    (l : list LogEvent) :
  exists sessions l',
    createSessions opts baseSession accts ∅ [] l
    = (Continue (sessions, List.filter (authenticates opts baseSession) accts), l')
    /\ List.filter (authenticates opts baseSession) accts `sublist_of` accts
    /\ (forall k, is_Some (sessions !! k)
                  <-> k ∈ ID <$> List.filter (authenticates opts baseSession) accts)
    /\ (if chained opts then True
        else List.filter (authenticates opts baseSession) accts = accts
             /\ forall k, k ∈ ID <$> accts -> sessions !! k = Some baseSession).
Proof.
  destruct (createSessions_spec baseSession accts ∅ [] l)
    as (sessions & l' & Hrun & Hframe & Hsome & Hbase).
  exists sessions, l'. split; [exact Hrun|].
  split; [apply List_filter_sublist|]. split.
  - intros k. split; [|apply Hsome].
    intros Hk.
    destruct (decide (k ∈ ID <$> List.filter (authenticates opts baseSession) accts))
      as [Hin|Hout]; [done|].
    rewrite Hframe, lookup_empty in Hk by done. by destruct Hk.
  - destruct (chained opts) eqn:Hchained; [done|]. split; [|by apply Hbase].
    clear -Hchained. induction accts as [|a accts IH]; [done|].
    simpl. unfold authenticates at 1. rewrite Hchained. by rewrite IH.
Qed.

(** X11. The session loop never stops the run. The accounts it keeps are,
    in order, the accounts for which the scanner role could be assumed and
    verified, or all accounts without role chaining; the session map has
    an entry exactly for the IDs of the accounts kept, and without role
    chaining every entry is the base session. *)
Theorem sessions_for_authenticated (baseSession : Session) (accts : list Account)
    (l : list LogEvent) :
  exists sessions l',
    createSessions opts baseSession accts ∅ [] l
    = (Continue (sessions, List.filter (authenticates opts baseSession) accts), l')
    /\ List.filter (authenticates opts baseSession) accts `sublist_of` accts
    /\ (forall k, is_Some (sessions !! k)
                  <-> k ∈ ID <$> List.filter (authenticates opts baseSession) accts)
    /\ (if chained opts then True
        else List.filter (authenticates opts baseSession) accts = accts
             /\ forall k, k ∈ ID <$> accts -> sessions !! k = Some baseSession).
Proof. apply createSessions_fresh. Qed.

(** X12. When account resolution lets the run continue, at least one
    account is left and every account left has a session; in particular
    [accounts[0]] and its session exist where the regions are resolved. *)
Theorem resolved_accounts_have_sessions (l l' : list LogEvent)
    (sessions : gmap string Session) (accts : list Account)
    (Hresolved : resolveAccounts cfg opts l = (Continue (sessions, accts), l')) :
  accts <> []
  /\ (forall account, account ∈ accts -> is_Some (sessions !! ID account))
  /\ (exists first rest session,
        accts = first :: rest /\ sessions !! ID first = Some session)
  /\ (accounts opts <> "" ->
      forall account, account ∈ accts ->
                      ID account ∈ TrimSpace <$> Split (accounts opts) ",").
Proof.
  unfold resolveAccounts in Hresolved.
  apply bind_Continue in Hresolved as (_ & l1 & _ & Hresolved).
  apply bind_Continue in Hresolved as (baseSession & l2 & _ & Hresolved).
  apply bind_Continue in Hresolved as (listed & l3 & _ & Hresolved).
  apply bind_Continue in Hresolved as (kept & l4 & Hkept & Hresolved).
  apply bind_Continue in Hresolved as ([sessions' accts'] & l5 & Hsessions & Hresolved).
  simpl in Hresolved.
  destruct (Z.of_nat (size sessions') =? 0) eqn:Hsize; [discriminate|].
  unfold ret in Hresolved. injection Hresolved as -> -> ->.
  destruct (createSessions_fresh baseSession kept l4)
    as (sessions' & l'' & Hrun & Hsub & Hdom & _).
  rewrite Hrun in Hsessions. injection Hsessions as <- <- _.
  assert (forall account, account ∈ List.filter (authenticates opts baseSession) kept ->
                          is_Some (sessions' !! ID account)) as Hall.
  { intros account Hin. apply Hdom. by apply list_elem_of_fmap_2. }
  assert (List.filter (authenticates opts baseSession) kept <> []) as Hsome.
  { intros Hnil. apply Z.eqb_neq in Hsize. apply Hsize.
    assert (sessions' = ∅) as ->; [|by rewrite map_size_empty].
    apply map_empty. intros k. apply eq_None_not_Some. rewrite Hdom, Hnil.
    apply not_elem_of_nil. }
  split; [done|]. split; [done|]. split.
  - destruct (List.filter (authenticates opts baseSession) kept) as [|first rest] eqn:Hauth;
      [done|].
    destruct (Hall first) as [session Hsession]; [apply list_elem_of_here|].
    by exists first, rest, session.
  - intros Hexplicit account Hin.
    rewrite filterAccounts_explicit in Hkept by done.
    destruct (filteredAccounts (Split (accounts opts) ",") listed) as [|a kept'] eqn:Hfiltered;
      [discriminate|].
    injection Hkept as <- _. rewrite <- Hfiltered in Hin.
    apply list_elem_of_In, filter_In in Hin as [Hin _].
    apply list_elem_of_In in Hin. by apply elem_of_filteredAccounts in Hin as [_ ?].
Qed.

(** X13. Every requested account ID, trimmed, is either reported invalid
    or is the ID of an account kept, never both. The accounts kept are a
    subsequence of the listing, and filtering them again, or validating
    the request against them, changes nothing. *)
Theorem requested_accounts_partition (requested : list string) (accts : list Account)
    (accountID : string) (Hrequested : accountID ∈ TrimSpace <$> requested) :
  (accountID ∈ invalidAccounts requested accts
   <-> accountID ∉ ID <$> filteredAccounts requested accts)
  /\ filteredAccounts requested accts `sublist_of` accts
  /\ filteredAccounts requested (filteredAccounts requested accts)
     = filteredAccounts requested accts
  /\ invalidAccounts requested (filteredAccounts requested accts)
     = invalidAccounts requested accts.
Proof.
  assert (forall x, x ∈ TrimSpace <$> requested ->
            (x ∈ ID <$> filteredAccounts requested accts <-> x ∈ ID <$> accts)) as Hkept.
  { intros x Hx. rewrite !list_elem_of_fmap. split.
    - intros (a & -> & Ha). apply elem_of_filteredAccounts in Ha as [Ha _]. eauto.
    - intros (a & -> & Ha). exists a. split; [done|]. by apply elem_of_filteredAccounts. }
  split; [|split; [apply List_filter_sublist|split]].
  - rewrite elem_of_invalidAccounts, (Hkept _ Hrequested). tauto.
  - unfold filteredAccounts. rewrite filter_twice. apply filter_ext.
    intros a. by rewrite andb_diag.
  - unfold invalidAccounts. apply filter_ext_in. intros x Hx.
    apply list_elem_of_In in Hx. f_equal. apply bool_decide_ext.
    rewrite !elem_of_list_to_set. by apply Hkept.
Qed.

End Sessions.

(** ** The errors of [runScan] *)

Section HardStops.
Context {strings_pkg : StringsPkg} {aws : AwsEnv}.
Variable cfg : Config.
Variable opts : scanOptions.





End HardStops.


Lemma resolved_accounts_have_sessions_witness :
  resolveAccounts (strings_pkg := asciiStrings) (aws := Scenario.cloud)
    Scenario.config Scenario.options []
  = (Continue (Scenario.sessions, [Scenario.prod; Scenario.dev]),
     [LogInfo "Creating organization session";
      LogInfo "Successfully assumed scanner role";
      LogInfo "Successfully assumed scanner role"])
  /\ [Scenario.prod; Scenario.dev] <> [].
Proof.
  assert (resolveAccounts (strings_pkg := asciiStrings) (aws := Scenario.cloud)
            Scenario.config Scenario.options []
          = (Continue (Scenario.sessions, [Scenario.prod; Scenario.dev]),
             [LogInfo "Creating organization session";
              LogInfo "Successfully assumed scanner role";
              LogInfo "Successfully assumed scanner role"])) as Hresolved
    by (vm_compute; reflexivity).
  split; [exact Hresolved|].
  apply (resolved_accounts_have_sessions (strings_pkg := asciiStrings)
           (aws := Scenario.cloud) Scenario.config Scenario.options _ _ _ _ Hresolved).
Defined.

Lemma requested_accounts_partition_witness :
  "999999999999" ∈ TrimSpace (StringsPkg := asciiStrings)
                   <$> ["222222222222"; " 999999999999"]
  /\ ("999999999999"
      ∈ invalidAccounts (strings_pkg := asciiStrings) ["222222222222"; " 999999999999"]
          [Scenario.prod; Scenario.dev]
      <-> "999999999999"
          ∉ ID <$> filteredAccounts (strings_pkg := asciiStrings)
                     ["222222222222"; " 999999999999"] [Scenario.prod; Scenario.dev]).
Proof.
  assert ("999999999999" ∈ TrimSpace (StringsPkg := asciiStrings)
                           <$> ["222222222222"; " 999999999999"]) as Hrequested
    by (apply (list_elem_of_lookup_2 _ 1%nat); reflexivity).
  split; [exact Hrequested|].
  apply (requested_accounts_partition (strings_pkg := asciiStrings)
           ["222222222222"; " 999999999999"] [Scenario.prod; Scenario.dev]
           "999999999999" Hrequested).
Defined.

(** ** The command line *)

Lemma cutAt_Some (s : string) (sep : ascii) (before after : string) :
  cutAt s sep = Some (before, after) ->
  s = before +:+ String sep after /\ sep ∉ list_ascii_of_string before.
Proof.
  revert before. induction s as [|c s IH]; intros before; simpl; [discriminate|].
  destruct (Ascii.eqb_spec c sep) as [->|Hc].
  - intros [= <- <-]. split; [done|]. apply not_elem_of_nil.
  - destruct (cutAt s sep) as [[b a]|]; [|discriminate].
    intros [= <- <-]. destruct (IH b eq_refl) as [-> Hb].
    split; [done|]. simpl. apply not_elem_of_cons. split; [congruence|done].
Qed.

Lemma cutAt_None (s : string) (sep : ascii) :
  cutAt s sep = None <-> sep ∉ list_ascii_of_string s.
Proof.
  induction s as [|c s IH]; simpl.
  - split; [intros _; apply not_elem_of_nil|done].
  - rewrite not_elem_of_cons. destruct (Ascii.eqb_spec c sep) as [->|Hc].
    + split; [discriminate|]. by intros [? _].
    + destruct (cutAt s sep) as [[b a]|].
      * split; [discriminate|]. intros [_ Hs]. by apply IH in Hs.
      * split; [|done]. intros _. split; [congruence|]. by apply IH.
Qed.

Lemma parseTagFields_snoc (fields : list string) (field : string)
    (tags : gmap string string) :
  parseTagFields (fields ++ [field]) tags
  = match cutAt field "=" with
    | Some (k, v) => <[k := v]> (parseTagFields fields tags)
    | None => parseTagFields fields tags
    end.
Proof.
  unfold parseTagFields. rewrite foldl_snoc. unfold SplitN2.
  by destruct (cutAt field "=") as [[k v]|].
Qed.

Lemma parseTagFields_lookup (fields : list string) (tags : gmap string string)
    (k v : string) :
  parseTagFields fields tags !! k = Some v ->
  tags !! k = Some v \/ exists field, field ∈ fields /\ cutAt field "=" = Some (k, v).
Proof.
  induction fields as [|field fields IH] using rev_ind; [by left|].
  rewrite parseTagFields_snoc.
  destruct (cutAt field "=") as [[k' v']|] eqn:Hcut.
  - rewrite lookup_insert. case_decide as Hk.
    + intros [= <-]. subst k'. right. exists field. split; [|done].
      apply elem_of_app. right. apply list_elem_of_here.
    + intros Hlookup. destruct (IH Hlookup) as [?|(f & Hf & Hc)]; [by left|].
      right. exists f. split; [|done]. apply elem_of_app. by left.
  - intros Hlookup. destruct (IH Hlookup) as [?|(f & Hf & Hc)]; [by left|].
    right. exists f. split; [|done]. apply elem_of_app. by left.
Qed.

Lemma parseTagFields_present (fields : list string) (tags : gmap string string)
    (field k v : string) :
  field ∈ fields -> cutAt field "=" = Some (k, v) ->
  is_Some (parseTagFields fields tags !! k).
Proof.
  induction fields as [|f fields IH] using rev_ind; [by intros ?%elem_of_nil|].
  rewrite parseTagFields_snoc. intros Hin Hcut.
  apply elem_of_app in Hin as [Hin|Hin].
  - destruct (cutAt f "=") as [[k' v']|]; [|by apply IH].
    rewrite lookup_insert. case_decide; [eauto|by apply IH].
  - apply list_elem_of_singleton in Hin as ->. rewrite Hcut, lookup_insert_eq. eauto.
Qed.

(** X14. The map parsed from [--ignore-tags] has a key exactly for the
    fields that contain "=": key and value are the parts before and after
    the first "=" of some field, so a key never contains "=" while a value
    may. A field without "=" is dropped, of two fields with one key the
    later one decides the value, and a field [k=v] whose [k] has no "=" is
    cut back into [k] and [v]. *)
Theorem ignore_tags_parsing (flag : string) :
  (forall k v, parseIgnoreTags flag !! k = Some v ->
     exists field, field ∈ Split flag ","
                   /\ field = k +:+ "=" +:+ v
                   /\ "="%char ∉ list_ascii_of_string k)
  /\ (forall field k v, field ∈ Split flag "," -> cutAt field "=" = Some (k, v) ->
        is_Some (parseIgnoreTags flag !! k))
  /\ ((forall field, field ∈ Split flag "," -> "="%char ∉ list_ascii_of_string field) ->
      parseIgnoreTags flag = ∅)
  /\ (forall fields field k v tags,
        cutAt field "=" = Some (k, v) ->
        parseTagFields (fields ++ [field]) tags !! k = Some v)
  /\ (forall k v, "="%char ∉ list_ascii_of_string k ->
        cutAt (k +:+ "=" +:+ v) "=" = Some (k, v)).
Proof.
  unfold parseIgnoreTags. split; [|split; [|split; [|split]]].
  - intros k v Hlookup.
    apply parseTagFields_lookup in Hlookup as [Hempty|(field & Hin & Hcut)];
      [by rewrite lookup_empty in Hempty|].
    apply cutAt_Some in Hcut as [-> Hk]. by exists (k +:+ String "=" v).
  - intros field k v. apply parseTagFields_present.
  - intros Hnone. apply map_empty. intros k.
    destruct (parseTagFields (Split flag ",") ∅ !! k) as [v|] eqn:Hlookup; [|done].
    apply parseTagFields_lookup in Hlookup as [Hempty|(field & Hin & Hcut)];
      [by rewrite lookup_empty in Hempty|].
    apply Hnone, cutAt_None in Hin. congruence.
  - intros fields field k v tags Hcut.
    rewrite parseTagFields_snoc, Hcut. apply lookup_insert_eq.
  - intros k v Hk. apply cutAt_None in Hk.
    induction k as [|c k IH]; simpl in *; [done|].
    destruct (Ascii.eqb c "="); [discriminate|].
    destruct (cutAt k "=") as [[? ?]|]; [discriminate|]. by rewrite IH.
Qed.

(** The flag [Env=prod,broken,Env=a=b] gives one tag, with the last
    value. *)
Example ignore_tags_example :
  parseIgnoreTags "Env=prod,broken,Env=a=b" = {[ "Env" := "a=b" ]}.
Proof. vm_compute. reflexivity. Qed.

Section Command.
Context {strings_pkg : StringsPkg} {aws : AwsEnv}.

(** X15. The command reaches [runScan] only with output format json or
    html, output type filesystem or s3 and, for s3, a bucket and a bucket
    region; otherwise it returns the validation error and nothing runs.
    After these checks the bucket check of [runScan] itself cannot fail:
    S3 validation either continues or returns the access error. *)
Theorem flags_validation (changed : string -> bool) (flags : ignoreFlags)
    (cfg : Config) (opts : scanOptions) :
  (validateFlags opts = None
   <-> (outputFormat opts = "json" \/ outputFormat opts = "html")
       /\ (output opts = "filesystem" \/ output opts = "s3")
       /\ (output opts = "s3" -> bucket opts <> "" /\ bucketRegion opts <> ""))
  /\ match validateFlags opts with
     | Some err => RunE changed flags None cfg opts = stopped err
     | None =>
         RunE changed flags None cfg opts = runScan (applyIgnoreFlags changed flags cfg) opts
         /\ forall l,
              validateOutput opts l
              = (if String.eqb (output opts) "s3" then
                   match validateS3Access (bucket opts) (bucketRegion opts)
                           (organizationRole opts) with
                   | Some err => Return (Some ("S3 bucket validation failed: " +:+ err))
                   | None => Continue tt
                   end
                 else Continue tt, l)
     end.
Proof.
  split.
  - unfold validateFlags.
    destruct (String.eqb_spec (outputFormat opts) "json") as [Hjson|Hjson];
      destruct (String.eqb_spec (outputFormat opts) "html") as [Hhtml|Hhtml];
      destruct (String.eqb_spec (output opts) "filesystem") as [Hfs|Hfs];
      destruct (String.eqb_spec (output opts) "s3") as [Hs3|Hs3];
      destruct (String.eqb_spec (bucket opts) "") as [Hb|Hb];
      destruct (String.eqb_spec (bucketRegion opts) "") as [Hr|Hr];
      simpl; split; try discriminate; try tauto; try congruence;
      intros (? & ? & Hparams); try (destruct (Hparams Hs3)); tauto.
  - unfold RunE. destruct (validateFlags opts) as [err|] eqn:Hvalid; [done|].
    split; [done|]. intros l. unfold validateOutput, validateFlags in *.
    destruct (_ || _)%bool; [|discriminate].
    destruct (_ || _)%bool; [|discriminate].
    destruct (String.eqb (output opts) "s3"); [|done].
    destruct (String.eqb (bucket opts) ""); [discriminate|].
    by destruct (validateS3Access _ _ _).
Qed.

End Command.

(** X16. A role ARN returned by [getRoleARN] always starts with
    [arn:aws:iam::] and is a fixed point: given back to [getRoleARN] it is
    returned unchanged whatever the identity call would answer. A name
    that already is an ARN is returned as it is; the only error is that of
    the identity call, for a name that is not an ARN. *)
Theorem role_arn (callerAccount : result string) (roleName : string) :
  match getRoleARN callerAccount roleName with
  | Ok arn =>
      String.prefix "arn:aws:iam::" arn = true
      /\ (forall other, getRoleARN other arn = Ok arn)
      /\ (String.prefix "arn:aws:iam::" roleName = true -> arn = roleName)
      /\ (String.prefix "arn:aws:iam::" roleName = false ->
          exists account, callerAccount = Ok account
                          /\ arn = "arn:aws:iam::" +:+ account +:+ ":role/" +:+ roleName)
  | Err err =>
      String.prefix "arn:aws:iam::" roleName = false
      /\ exists cause, callerAccount = Err cause
                       /\ err = "failed to get account ID: " +:+ cause
  end.
Proof.
  unfold getRoleARN.
  destruct (String.prefix "arn:aws:iam::" roleName) eqn:Hprefix.
  - split; [done|]. split; [by intros other; rewrite Hprefix|]. split; [done|discriminate].
  - destruct callerAccount as [account|cause].
    + assert (String.prefix "arn:aws:iam::"
                ("arn:aws:iam::" +:+ account +:+ ":role/" +:+ roleName) = true) as Hnew
        by (simpl; by destruct (account +:+ _)).
      split; [done|]. split; [by intros other; rewrite Hnew|].
      split; [discriminate|]. intros _. by exists account.
    + split; [done|]. by exists cause.
Qed.

(** ** The aggregated results and the report *)

(** X19. The guarded append panics exactly when the account has no entry.
    When the account has one, as [runScan] provides for every unit, the
    append adds its results at the end of the list of its own pair and
    changes nothing else: the list of every other pair, the set of
    accounts and the ID and name stored with each account stay as they
    were. *)
Theorem append_touches_one_pair (ar : gmap string scanResult)
    (accountID label : string) (filteredResults : ScanResults) :
  match ar !! accountID with
  | None => appendOrPanic accountID label filteredResults ar = None
  | Some _ =>
      exists ar',
        appendOrPanic accountID label filteredResults ar = Some ar'
        /\ ar' = appendResults accountID label filteredResults ar
        /\ (forall accountID' label', (accountID', label') <> (accountID, label) ->
              resultsFor ar' accountID' label' = resultsFor ar accountID' label')
        /\ resultsFor ar' accountID label = resultsFor ar accountID label ++ filteredResults
        /\ dom ar' = dom ar
        /\ (forall k res',
              ar' !! k = Some res' ->
              exists res, ar !! k = Some res
                          /\ srAccountID res' = srAccountID res
                          /\ srAccountName res' = srAccountName res)
  end.
Proof.
  unfold appendOrPanic. destruct (ar !! accountID) as [res|] eqn:Hres; [|done].
  eexists. split; [reflexivity|]. split; [reflexivity|].
  split; [|split; [|split]].
  - intros accountID' label' Hother.
    rewrite resultsFor_appendResults by eauto. unfold appended.
    destruct (String.eqb_spec accountID accountID') as [->|_]; simpl;
      [|by rewrite app_nil_r].
    destruct (String.eqb_spec label label') as [->|_]; [done|by rewrite app_nil_r].
  - rewrite resultsFor_appendResults by eauto. unfold appended.
    by rewrite !String.eqb_refl.
  - unfold appendResults. rewrite Hres.
    rewrite dom_insert_L. apply elem_of_dom_2 in Hres.
    apply subseteq_union_1_L, singleton_subseteq_l, Hres.
  - intros k res'. unfold appendResults. rewrite Hres.
    rewrite lookup_insert. case_decide as Hk; [|eauto].
    intros [= <-]. subst k. by exists res.
Qed.

(** Every unit of a batch that [runScan] creates finds its entry: from the
    map it initialises the append of a unit never panics. *)
Example append_finds_entry :
  is_Some (appendOrPanic "111111111111" "EBS Volumes" []
             (initResults [Scenario.prod; Scenario.dev]))
  /\ appendOrPanic "333333333333" "EBS Volumes" []
       (initResults [Scenario.prod; Scenario.dev]) = None.
Proof. split; vm_compute; eauto. Qed.

Lemma elem_of_allResults (ar : gmap string scanResult) (r : ScanResult) :
  r ∈ allResults ar <-> exists accountID label, r ∈ resultsFor ar accountID label.
Proof.
  unfold allResults, resultsFor. rewrite list_elem_of_bind. split.
  - intros ([accountID res] & Hr & Hres). apply elem_of_map_to_list in Hres.
    apply list_elem_of_bind in Hr as ([label rs] & Hr & Hrs).
    apply elem_of_map_to_list in Hrs. simpl in *.
    exists accountID, label. by rewrite Hres, Hrs.
  - intros (accountID & label & Hr).
    destruct (ar !! accountID) as [res|] eqn:Hres; [|by apply elem_of_nil in Hr].
    destruct (Results res !! label) as [rs|] eqn:Hrs; [|by apply elem_of_nil in Hr].
    simpl in Hr. exists (accountID, res). split; [|by apply elem_of_map_to_list].
    apply list_elem_of_bind. exists (label, rs). split; [done|].
    by apply elem_of_map_to_list.
Qed.

Section Report.
Context {strings_pkg : StringsPkg} {aws : AwsEnv}.
Variable cfg : Config.
Variable opts : scanOptions.
Variable accountSessions : gmap string Session.

(** X17. The result list of the HTML report holds exactly the results
    found in the list of some (account, label) pair. After a batch, under
    any interleaving, a result is in the report exactly when it was in the
    structure before or is a retained result of some unit of the batch;
    from the structure [runScan] starts with, exactly the units'
    retained results. *)
Theorem report_lists_retained_results (units : list ScanUnit) (st : ScanState)
    (trace : list Action) (r : ScanResult)
    (Hready : forall u, u ∈ units -> is_Some (accountResults st !! ID (unitAccount u)))
    (Hsched : interleaving (unitActions cfg opts accountSessions <$> units) trace) :
  (r ∈ allResults (accountResults (run st trace))
   <-> r ∈ allResults (accountResults st)
       \/ exists u, u ∈ units /\ r ∈ contribution cfg opts accountSessions u)
  /\ (forall accts, accountResults st = initResults accts ->
        (r ∈ allResults (accountResults (run st trace))
         <-> exists u, u ∈ units /\ r ∈ contribution cfg opts accountSessions u)).
Proof.
  assert (r ∈ allResults (accountResults (run st trace))
          <-> r ∈ allResults (accountResults st)
              \/ exists u, u ∈ units /\ r ∈ contribution cfg opts accountSessions u)
    as Hreport.
  { rewrite !elem_of_allResults. split.
    - intros (accountID & label & Hr).
      rewrite (interleaved_results cfg opts accountSessions units st trace accountID label
                 Hready Hsched) in Hr.
      apply elem_of_app in Hr as [Hr|Hr]; [left; eauto|right].
      apply list_elem_of_bind in Hr as (u & Hr & Hu).
      apply list_elem_of_In, filter_In in Hu as [Hu _]. apply list_elem_of_In in Hu. eauto.
    - intros [(accountID & label & Hr)|(u & Hu & Hr)].
      + exists accountID, label.
        rewrite (interleaved_results cfg opts accountSessions units st trace accountID label
                   Hready Hsched).
        apply elem_of_app. by left.
      + exists (ID (unitAccount u)), (Label (unitScanner u)).
        rewrite (interleaved_results cfg opts accountSessions units st trace _ _
                   Hready Hsched).
        apply elem_of_app. right. apply list_elem_of_bind. exists u. split; [done|].
        apply list_elem_of_In, filter_In. split; [by apply list_elem_of_In|].
        unfold targets. by rewrite !String.eqb_refl. }
  split; [exact Hreport|].
  intros accts Hinit. rewrite Hreport. split; [|by right].
  intros [Hold|Hnew]; [|done].
  apply elem_of_allResults in Hold as (accountID & label & Hold).
  rewrite Hinit, initResults_empty in Hold. by apply elem_of_nil in Hold.
Qed.

End Report.

Lemma report_lists_retained_results_witness :
  (forall u, u ∈ [Running.ebsUnit; Batches.ebsEast] ->
             is_Some (accountResults Running.idle !! ID (unitAccount u)))
  /\ interleaving (unitActions (strings_pkg := asciiStrings) (aws := Scenario.cloud)
                     Scenario.config Scenario.options Scenario.sessions
                   <$> [Running.ebsUnit; Batches.ebsEast]) Batches.overlapped
  /\ (annotate Scenario.prod Scenario.ebsVolumes "us-west-2"
        (Scenario.volume "vol-456" "data" [])
      ∈ allResults (accountResults (run Running.idle Batches.overlapped))
      <-> annotate Scenario.prod Scenario.ebsVolumes "us-west-2"
            (Scenario.volume "vol-456" "data" [])
          ∈ allResults (accountResults Running.idle)
          \/ exists u, u ∈ [Running.ebsUnit; Batches.ebsEast]
                       /\ annotate Scenario.prod Scenario.ebsVolumes "us-west-2"
                            (Scenario.volume "vol-456" "data" [])
                          ∈ contribution (strings_pkg := asciiStrings)
                              (aws := Scenario.cloud) Scenario.config Scenario.options
                              Scenario.sessions u).
Proof.
  split; [exact batch_ready|]. split; [exact overlapped_schedule|].
  apply (report_lists_retained_results (strings_pkg := asciiStrings)
           (aws := Scenario.cloud) Scenario.config Scenario.options Scenario.sessions
           [Running.ebsUnit; Batches.ebsEast] Running.idle Batches.overlapped
           _ batch_ready overlapped_schedule).
Defined.

(** X18. With at least one account, the S3 branch marshals one record per
    account entry, each with the entry's ID and results; the account name
    of every record is the name of the first account, whichever account
    the record belongs to. *)
Theorem s3_records (first : Account) (rest : list Account)
    (ar : gmap string scanResult) :
  exists records,
    s3OutputData (first :: rest) ar = Some records
    /\ length records = size ar
    /\ (forall record, record ∈ records ->
          srAccountName record = Name first
          /\ exists res, ar !! srAccountID record = Some res
                         /\ Results record = Results res)
    /\ (forall accountID res, ar !! accountID = Some res ->
          {| srAccountID := accountID; srAccountName := Name first;
             Results := Results res |} ∈ records).
Proof.
  unfold s3OutputData.
  pose proof (length_map_to_list ar) as Hsize.
  pose proof (fun k v => elem_of_map_to_list ar k v) as Hentries.
  destruct (map_to_list ar) as [|entry entries] eqn:Hlist.
  - exists []. split; [done|]. split; [done|]. split.
    + intros record Hin. by apply elem_of_nil in Hin.
    + intros accountID res Hres. apply Hentries in Hres. by apply elem_of_nil in Hres.
  - eexists. split; [reflexivity|]. split; [by rewrite length_fmap|]. split.
    + intros record Hin. apply list_elem_of_fmap in Hin as ([k res] & -> & Hin).
      simpl. split; [done|]. exists res. split; [by apply Hentries|done].
    + intros accountID res Hres. apply Hentries in Hres.
      apply list_elem_of_fmap. by exists (accountID, res).
Qed.

(** With two accounts, the record of the second carries the first's
    name. *)
Example s3_records_example :
  (fun record => (srAccountID record, srAccountName record))
  <$> default [] (s3OutputData [Scenario.prod; Scenario.dev]
                    (initResults [Scenario.prod; Scenario.dev]))
  ≡ₚ [("111111111111", "prod"); ("222222222222", "prod")].
Proof. vm_compute. apply Permutation_refl || apply perm_swap. Qed.

(** ** Runs that degrade *)

Section Degraded.
Context {strings_pkg : StringsPkg} {aws : AwsEnv}.
Variable cfg : Config.
Variable opts : scanOptions.

Lemma prepareScan_scanners (l l' : list LogEvent) (plan : Plan) :
  prepareScan cfg opts l = (Continue plan, l') ->
  exists l1 l2, validateScanners opts l1 = (Continue (planScanners plan), l2).
Proof.
  unfold prepareScan. intros Hplan.
  apply bind_Continue in Hplan as (_ & l1 & _ & Hplan).
  apply bind_Continue in Hplan as (scnrs & l2 & Hscnrs & Hplan).
  apply bind_Continue in Hplan as (resolved & l3 & _ & Hplan).
  apply bind_Continue in Hplan as (rgns & l4 & _ & Hplan).
  destruct (InitSharedPool (MaxWorkers cfg)); [discriminate|].
  unfold bind, emit, ret in Hplan. injection Hplan as <- _. simpl. eauto.
Qed.

(** X20. When [getScanners] fails, or finds no scanner and no invalid name,
    the run is not stopped at the scanner check: a warning is logged, the
    scanner list is empty, and [runScan] creates no unit; what it returns
    is decided by the later steps. *)
Theorem empty_scanner_set_is_not_fatal
    (Hnone : match getScanners (scanners opts) with
             | Err _ => True
             | Ok (found, invalid) => found = [] /\ invalid = []
             end) :
  (forall l, exists l',
     validateScanners opts l = (Continue [], l')
     /\ last l' = Some (LogWarn "No scanners available, scan will be skipped" []))
  /\ created (runScan cfg opts) = []
  /\ (forall plan l, prepareScan cfg opts [] = (Continue plan, l) ->
        planTasks plan = [] /\ returned (runScan cfg opts) = None
        /\ accountResults (final (runScan cfg opts)) = initResults (planAccounts plan)).
Proof.
  assert (forall l, exists l',
            validateScanners opts l = (Continue [], l')
            /\ last l' = Some (LogWarn "No scanners available, scan will be skipped" []))
    as Hcontinue.
  { intros l. unfold validateScanners, bind, when, emit, ret.
    destruct (getScanners (scanners opts)) as [[found invalid]|err].
    - destruct Hnone as [-> ->]. simpl. eexists. split; [reflexivity|apply last_snoc].
    - simpl. eexists. split; [reflexivity|apply last_snoc]. }
  assert (forall plan l, prepareScan cfg opts [] = (Continue plan, l) -> planTasks plan = [])
    as Hempty.
  { intros plan l Hplan.
    destruct (prepareScan_plan cfg opts _ _ _ Hplan) as [-> _].
    destruct (prepareScan_scanners _ _ _ Hplan) as (l1 & l2 & Hscnrs).
    destruct (Hcontinue l1) as (l' & Hrun & _). rewrite Hrun in Hscnrs.
    by injection Hscnrs as <- _. }
  split; [exact Hcontinue|]. split.
  - unfold runScan. destruct (prepareScan cfg opts []) as [[plan|e] l] eqn:Hplan; [|done].
    simpl. by apply (Hempty plan l).
  - intros plan l Hplan. split; [by apply (Hempty plan l)|].
    unfold runScan. rewrite Hplan. simpl. rewrite (Hempty plan l Hplan).
    split; [done|]. simpl. by destruct (prepareScan_plan cfg opts _ _ _ Hplan) as [_ ->].
Qed.

(** X22. Role chaining needs both roles. Without one of them, a run that
    gets past account resolution has listed only the current account with
    the profile session, kept all of the listing or its requested part,
    and uses that one session for every account. *)
Theorem current_account_only (l l' : list LogEvent) (sessions : gmap string Session)
    (accts : list Account)
    (Hsingle : organizationRole opts = "" \/ scannerRole opts = "")
    (Hresolved : resolveAccounts cfg opts l = (Continue (sessions, accts), l')) :
  chained opts = false
  /\ exists baseSession listed,
       NewSession (Profile cfg) "" = Ok baseSession
       /\ ListCurrentAccount baseSession = Ok listed
       /\ accts = (if String.eqb (accounts opts) "" then listed
                   else filteredAccounts (Split (accounts opts) ",") listed)
       /\ forall account, account ∈ accts -> sessions !! ID account = Some baseSession.
Proof.
  assert (chained opts = false) as Hchained.
  { unfold chained. destruct Hsingle as [->| ->]; simpl; [done|apply andb_false_r]. }
  split; [done|].
  unfold resolveAccounts in Hresolved.
  apply bind_Continue in Hresolved as (_ & l1 & _ & Hresolved).
  apply bind_Continue in Hresolved as (baseSession & l2 & Hbase & Hresolved).
  apply bind_Continue in Hresolved as (listed & l3 & Hlisted & Hresolved).
  apply bind_Continue in Hresolved as (kept & l4 & Hkept & Hresolved).
  apply bind_Continue in Hresolved as ([sessions' accts'] & l5 & Hsessions & Hresolved).
  simpl in Hresolved.
  destruct (Z.of_nat (size sessions') =? 0); [discriminate|].
  unfold ret in Hresolved. injection Hresolved as -> -> ->.
  unfold createBaseSession in Hbase. rewrite Hchained in Hbase.
  destruct (NewSession (Profile cfg) "") as [base|err] eqn:Hnew; [|discriminate].
  injection Hbase as -> _.
  unfold listAccounts in Hlisted. rewrite Hchained in Hlisted.
  destruct (ListCurrentAccount baseSession) as [current|err] eqn:Hcurrent; [|discriminate].
  injection Hlisted as -> _.
  destruct (createSessions_fresh opts baseSession kept l4)
    as (sessions' & l'' & Hrun & _ & _ & Hall).
  rewrite Hrun in Hsessions. injection Hsessions as <- <- _.
  rewrite Hchained in Hall. destruct Hall as [Hkeep Hsame]. rewrite Hkeep.
  exists baseSession, listed. split; [done|]. split; [done|]. split.
  - destruct (String.eqb_spec (accounts opts) "") as [Hall|Hexplicit].
    + rewrite filterAccounts_all in Hkept by done. by injection Hkept as <- _.
    + rewrite filterAccounts_explicit in Hkept by done.
      destruct (filteredAccounts _ listed) as [|a kept'] eqn:Hfiltered; [discriminate|].
      by injection Hkept as <- _.
  - intros account Hin. apply Hsame. by apply list_elem_of_fmap_2.
Qed.

End Degraded.

Section FilterEdges.
Context {strings_pkg : StringsPkg}.
Variable cfg : Config.

(** X21. The retained results are a subsequence of the scan results, in
    the same order. With no ignore rule configured every result is
    retained; with no ID rule and no name rule, a result that has no tags
    is retained whatever the tag rules. *)
Theorem filter_edge_cases (results : ScanResults) :
  filterResults cfg results `sublist_of` results
  /\ (length (filterResults cfg results) <= length results)%nat
  /\ (ScanIgnoreResourceIDs cfg = [] -> ScanIgnoreResourceNames cfg = [] ->
      ScanIgnoreTags cfg = ∅ -> filterResults cfg results = results)
  /\ (ScanIgnoreResourceIDs cfg = [] -> ScanIgnoreResourceNames cfg = [] ->
      Forall (fun r => Tags r = ∅) results -> filterResults cfg results = results).
Proof.
  rewrite filterResults_filter.
  split; [apply List_filter_sublist|].
  split; [apply sublist_length, List_filter_sublist|].
  assert (forall l : ScanResults,
            Forall (fun r => shouldIgnore cfg r = false) l ->
            List.filter (fun r => negb (shouldIgnore cfg r)) l = l) as Hkeep.
  { induction 1 as [|r l Hr _ IH]; [done|]. simpl. by rewrite Hr, IH. }
  split.
  - intros Hids Hnames Htags. apply Hkeep, Forall_forall. intros r _.
    rewrite shouldIgnore_orb. unfold ignoredByID, ignoredByName, ignoredByTag.
    by rewrite Hids, Hnames, Htags, map_to_list_empty.
  - intros Hids Hnames Hnotags. apply Hkeep.
    eapply Forall_impl; [exact Hnotags|]. intros r Hr.
    rewrite shouldIgnore_orb. unfold ignoredByID, ignoredByName.
    rewrite Hids, Hnames. simpl. apply ignoredByTag_no_tags. by rewrite Hr.
Qed.

End FilterEdges.

Lemma empty_scanner_set_is_not_fatal_witness :
  match getScanners (aws := Batches.bare) (scanners Batches.allScanners) with
  | Err _ => True
  | Ok (found, invalid) => found = [] /\ invalid = []
  end
  /\ created (runScan (strings_pkg := asciiStrings) (aws := Batches.bare)
                Scenario.config Batches.allScanners) = [].
Proof.
  assert (match getScanners (aws := Batches.bare) (scanners Batches.allScanners) with
          | Err _ => True
          | Ok (found, invalid) => found = [] /\ invalid = []
          end) as Hnone by exact I.
  split; [exact Hnone|].
  apply (empty_scanner_set_is_not_fatal (strings_pkg := asciiStrings) (aws := Batches.bare)
           Scenario.config Batches.allScanners Hnone).
Defined.

Lemma current_account_only_witness :
  (organizationRole Batches.solo = "" \/ scannerRole Batches.solo = "")
  /\ resolveAccounts (strings_pkg := asciiStrings) (aws := Scenario.cloud)
       Scenario.config Batches.solo []
     = (Continue ({[ "111111111111" := SessionHandle 0 ]}, [Scenario.prod]), [])
  /\ chained Batches.solo = false.
Proof.
  assert (organizationRole Batches.solo = "" \/ scannerRole Batches.solo = "") as Hsingle
    by (left; reflexivity).
  assert (resolveAccounts (strings_pkg := asciiStrings) (aws := Scenario.cloud)
            Scenario.config Batches.solo []
          = (Continue ({[ "111111111111" := SessionHandle 0 ]}, [Scenario.prod]), []))
    as Hresolved by (vm_compute; reflexivity).
  split; [exact Hsingle|]. split; [exact Hresolved|].
  apply (current_account_only (strings_pkg := asciiStrings) (aws := Scenario.cloud)
           Scenario.config Batches.solo _ _ _ _ Hsingle Hresolved).
Defined.
